(** * Travel planning backend: trips and the weather cache

    A shallow embedding of the backend under [backend/app]: the table
    models ([models/tables.py]), the request and response models
    ([models/request.py], [models/response.py]), the two repositories and
    the two services, followed by the properties proved about them.

    Conventions of the embedding.
    - A [datetime] is an integer count of microseconds (the resolution of
      Python's [datetime]); a [date] is an integer count of days.
    - Every repository or service call runs at one instant [now], the value
      [datetime.utcnow()] returns during that call.
    - A table is the list of its rows in rowid order.  [session.delete(o)]
      removes the rows carrying [o]'s primary key, an attribute assignment
      followed by [commit] rewrites the assigned columns of the rows carrying
      that key, and [session.add] of a fresh object appends a row whose key
      is one more than the largest key in the table.
    - The store is SQLite behind the sqlite3 driver.  A float column keeps
      every value but two: a negative zero is read back as zero, and a NaN
      is bound as NULL, which the NOT NULL columns of the cache table
      refuse with an [IntegrityError].  An integer outside the signed 64-bit
      range is refused by the driver with an [OverflowError].  A write that
      fails leaves the table as the last commit left it.  Of the trip table
      the model covers the refusal of a null in a NOT NULL column, and trip
      keys in the signed 64-bit range.  Input/output failures of the store
      are not part of the model.
    - Python's [float] is IEEE binary64: the primitive [float] of Rocq.
    - A string is a sequence of code points below 256 (one [ascii] per
      code point, as in Python's one-byte representation of a [str]);
      [strip] and [lower] are Python's on these strings, and so is [title]
      except at the two letters whose title case lies above 255.
    - The built-in [hash] and the HTTP exchange with the weather provider
      are inputs of the model (see [Env]). *)

From Stdlib Require Import ZArith List String Ascii Bool Lia Floats DecimalString.
Import ListNotations.
Open Scope Z_scope.

(** ** Python values and exceptions *)

Definition datetime := Z.
Definition date := Z.

(** The exceptions the code raises or lets through. *)
Inductive exn : Type :=
| HTTPException (status_code : Z) (detail : string)
| ValueError (msg : string)
| TypeError
| AttributeError
| OverflowError
| IntegrityError.

Inductive result (A : Type) : Type :=
| Ok (a : A)
| Raise (e : exn).
Arguments Ok {A} a.
Arguments Raise {A} e.

Definition is_ok {A : Type} (r : result A) : bool :=
  match r with Ok _ => true | Raise _ => false end.

(** A JSON number as Python decodes it: [int] or [float]. *)
Inductive pynum : Type :=
| PInt (z : Z)
| PFloat (f : float).

(** A value inside a weather-condition entry. *)
Inductive pyval : Type :=
| VNum (n : pynum)
| VStr (s : string).

(** A [dict] with string keys, as the list of its items. *)
Definition dict (V : Type) := list (string * V).

Fixpoint dict_get {V : Type} (d : dict V) (k : string) : option V :=
  match d with
  | [] => None
  | (k', v) :: rest => if String.eqb k' k then Some v else dict_get rest k
  end.

(** ** String methods

    The whitespace and case tables of Unicode, for the code points below
    256. *)

Definition code (c : ascii) : N := N_of_ascii c.

Definition between (lo hi : N) (c : ascii) : bool :=
  ((lo <=? code c) && (code c <=? hi))%N.

(** Upper-case letters: A to Z, and U+00C0 to U+00DE without the
    multiplication sign. *)
Definition is_upper (c : ascii) : bool :=
  between 65 90 c || (between 192 222 c && negb (code c =? 215)%N).

(** Lower-case letters: a to z, the two ordinal indicators, the micro
    sign, and U+00DF to U+00FF without the division sign. *)
Definition is_lower (c : ascii) : bool :=
  between 97 122 c
  || (code c =? 170)%N || (code c =? 181)%N || (code c =? 186)%N
  || (between 223 255 c && negb (code c =? 247)%N).

Definition is_cased (c : ascii) : bool := is_upper c || is_lower c.

(** [str.isspace] on one character: tab to carriage return, the four
    separators 28..31, the blank, the next-line control and the no-break
    space. *)
Definition is_space (c : ascii) : bool :=
  between 9 13 c || between 28 32 c
  || (code c =? 133)%N || (code c =? 160)%N.

(** The lower case of a character. *)
Definition to_lower (c : ascii) : ascii :=
  if is_upper c then ascii_of_N (code c + 32) else c.

(** The title case of a character: the upper-case letter 32 places below
    for a to z and U+00E0 to U+00FE, the two letters "Ss" for the sharp s,
    the character itself otherwise.  The micro sign and U+00FF have their
    title case above 255 (U+039C, U+0178): they are kept here, and
    [title_in_range] sets them apart. *)
Definition to_title (c : ascii) : string :=
  if (code c =? 223)%N then "Ss"
  else if between 97 122 c || (between 224 254 c && negb (code c =? 247)%N)
  then String (ascii_of_N (code c - 32)) EmptyString
  else String c EmptyString.


(** [s.lower()] *)
Fixpoint lower (s : string) : string :=
  match s with
  | EmptyString => EmptyString
  | String c r => String (to_lower c) (lower r)
  end.

Fixpoint lstrip (s : string) : string :=
  match s with
  | EmptyString => EmptyString
  | String c r => if is_space c then lstrip r else s
  end.

Fixpoint rstrip (s : string) : string :=
  match s with
  | EmptyString => EmptyString
  | String c r =>
      match rstrip r with
      | EmptyString => if is_space c then EmptyString else String c EmptyString
      | r' => String c r'
      end
  end.

(** [s.strip()] *)
Definition strip (s : string) : string := rstrip (lstrip s).

(** [s.title()]: each character is replaced by its lower case when the
    character before it is cased, and by its title case otherwise. *)
Fixpoint title_from (previous_is_cased : bool) (s : string) : string :=
  match s with
  | EmptyString => EmptyString
  | String c r =>
      ((if previous_is_cased then String (to_lower c) EmptyString
        else to_title c) ++ title_from (is_cased c) r)%string
  end.

Definition title (s : string) : string := title_from false s.

(** Truth value of a string: empty is false. *)
Definition truthy (s : string) : bool :=
  match s with EmptyString => false | _ => true end.

Definition len (s : string) : Z := Z.of_nat (String.length s).

(** ** Floats *)

(** [float(n)] for an [int]: the nearest binary64 value, ties to even;
    [None] stands for [OverflowError]. *)
Definition float_of_int (z : Z) : option float :=
  match binary_normalize prec emax z 0 false with
  | S754_infinity _ => None
  | sf => Some (SF2Prim sf)
  end.

(** The integer nearest to [m * 2^e], ties to even, for [0 <= m]. *)
Definition round_half_even (m e : Z) : Z :=
  match e with
  | Zneg p =>
      let d := Z.pow 2 (Zpos p) in
      let q := m / d in
      let r := m mod d in
      match Z.compare (2 * r) d with
      | Lt => q
      | Eq => if Z.even q then q else q + 1
      | Gt => q + 1
      end
  | _ => m * Z.pow 2 e
  end.

(** [round(x, 1)] on a float: NaN and the infinities round to themselves;
    a finite [x] goes to the binary64 value nearest to [n / 10], where [n]
    is the integer nearest to [10 * x] (ties to even, on the exact value
    of [x]); the sign of [x] is kept. *)
Definition round1 (x : float) : float :=
  match Prim2SF x with
  | S754_finite s m e =>
      match round_half_even (10 * Zpos m) e with
      | Zpos n =>
          SF2Prim (SFdiv prec emax (S754_finite s n 0) (S754_finite false 10 0))
      | _ => SF2Prim (S754_zero s)
      end
  | _ => x
  end.

(** Coercion of a number to a [float] field. *)
Definition as_float (n : pynum) : option float :=
  match n with
  | PInt z => float_of_int z
  | PFloat f => Some f
  end.

(** The integers [lo, lo+1, ..., lo+n-1]. *)
Definition zrange (lo : Z) (n : nat) : list Z :=
  map (fun i => lo + Z.of_nat i) (seq 0 n).

(** Coercion of a number to the [humidity] field ([int], [ge=0],
    [le=100]): an [int] in range, or a [float] equal to one. *)
Definition as_percent (n : pynum) : option Z :=
  match n with
  | PInt z => if (0 <=? z) && (z <=? 100) then Some z else None
  | PFloat f =>
      find (fun z => match float_of_int z with
                     | Some g => PrimFloat.eqb g f
                     | None => false
                     end) (zrange 0 101)
  end.

(** Coercion of a number to the [wind_speed] field ([float], [ge=0]). *)
Definition as_nonneg_float (n : pynum) : option float :=
  match as_float n with
  | Some f => if PrimFloat.leb 0%float f then Some f else None
  | None => None
  end.

(** ** What the store keeps of a value *)

(** The integers SQLite holds are the signed 64-bit ones; the driver
    refuses any other with an [OverflowError]. *)
Definition int64 (z : Z) : bool := (- 2 ^ 63 <=? z) && (z <? 2 ^ 63).

(** A float written to a REAL column and read back: a zero of either sign
    comes back as zero, any other value as it is.  (A NaN is not written:
    the driver binds it as NULL.) *)
Definition stored_real (f : float) : float :=
  if PrimFloat.is_zero f then PrimFloat.zero else f.

(** ** models/tables.py *)

Module Trip.
Record t : Type := mk {
  id : option Z;
  name : string;
  destination : string;
  start_date : date;
  end_date : date;
  notes : option string;
  created_at : datetime;
  updated_at : datetime
}.

(** The table's [validate_end_after_start] is a pydantic validator of a
    [table=True] model: neither construction nor attribute assignment
    runs it.  It records the intended invariant of a stored row. *)
Definition end_after_start (self : t) : bool :=
  start_date self <? end_date self.

Definition duration_days (self : t) : Z := end_date self - start_date self.
End Trip.

Module WeatherCache.
Record t : Type := mk {
  id : option Z;
  location : string;
  temperature : float;
  condition : string;
  humidity : Z;
  wind_speed : float;
  updated_at : datetime;
  cached_at : datetime
}.

(** [(utcnow() - cached_at).total_seconds() > 1800] *)
Definition is_expired (now : datetime) (self : t) : bool :=
  1800 * 1000000 <? now - cached_at self.

(** The column constraints of the table ([ge=0], [le=100]). *)
Definition in_range (self : t) : bool :=
  (0 <=? humidity self) && (humidity self <=? 100)
  && PrimFloat.leb 0%float (wind_speed self).

(** A NaN in one of the two float columns: a NULL in a NOT NULL column
    once bound. *)
Definition has_null (self : t) : bool :=
  PrimFloat.is_nan (temperature self) || PrimFloat.is_nan (wind_speed self).

(** The row as the table holds it once the object is written. *)
Definition stored (self : t) : t :=
  mk (id self) (location self) (stored_real (temperature self))
    (condition self) (humidity self) (stored_real (wind_speed self))
    (updated_at self) (cached_at self).
End WeatherCache.

(** Equality of primary keys. *)
Definition same_id (a b : option Z) : bool :=
  match a, b with
  | Some x, Some y => x =? y
  | None, None => true
  | _, _ => false
  end.

Definition id_value (i : option Z) : Z :=
  match i with Some x => x | None => 0 end.

(** The key given to a newly added row: one more than the largest key of
    the table. *)
Definition next_id (ids : list (option Z)) : Z :=
  fold_right (fun i acc => Z.max (id_value i) acc) 0 ids + 1.

(** ** models/request.py *)

(** A field of a partial update: left out of the request, or provided
    (possibly as an explicit null).  [model_dump(exclude_unset=True)] keeps
    the provided ones. *)
Inductive field (A : Type) : Type :=
| Unset
| Provided (v : option A).
Arguments Unset {A}.
Arguments Provided {A} v.

Module TripCreate.
Record t : Type := mk {
  name : string;
  destination : string;
  start_date : date;
  end_date : date;
  notes : option string
}.

Definition fields_ok (self : t) : bool :=
  (1 <=? len (name self)) && (len (name self) <=? 100)
  && (1 <=? len (destination self))
  && match notes self with Some n => len n <=? 500 | None => true end.

(** [validate_end_after_start] *)
Definition validate_end_after_start (self : t) : bool :=
  negb (end_date self <=? start_date self).

(** Construction of the model from a request body. *)
Definition validate (self : t) : result t :=
  if fields_ok self && validate_end_after_start self
  then Ok self
  else Raise (ValueError "validation error").
End TripCreate.

Module TripUpdate.
Record t : Type := mk {
  name : field string;
  destination : field string;
  start_date : field date;
  end_date : field date;
  notes : field string
}.

Definition fields_ok (self : t) : bool :=
  match name self with
  | Provided (Some n) => (1 <=? len n) && (len n <=? 100)
  | _ => true
  end
  && match destination self with
     | Provided (Some d) => 1 <=? len d
     | _ => true
     end
  && match notes self with
     | Provided (Some n) => len n <=? 500
     | _ => true
     end.

(** [validate_dates_if_provided]: runs when [end_date] is provided; it
    compares with [start_date] as given in the same request. *)
Definition validate_dates_if_provided (self : t) : bool :=
  match end_date self with
  | Provided (Some e) =>
      match start_date self with
      | Provided (Some s) => negb (e <=? s)
      | _ => true
      end
  | _ => true
  end.

(** Construction of the model from a request body. *)
Definition validate (self : t) : result t :=
  if fields_ok self && validate_dates_if_provided self
  then Ok self
  else Raise (ValueError "validation error").
End TripUpdate.

Module WeatherAPIRequest.
Record t : Type := mk {
  main : dict pynum;
  weather : list (dict pyval);
  wind : dict pynum;
  name : string
}.

(** [round(kelvin_temp - 273.15, 1)] *)
Definition to_celsius (kelvin_temp : float) : float :=
  round1 (PrimFloat.sub kelvin_temp 0x1.1126666666666p+8%float).

(** [round(ms_speed * 3.6, 1)]; an [int] argument is first converted to
    [float] by the multiplication. *)
Definition to_kmh (ms_speed : pynum) : result float :=
  match as_float ms_speed with
  | Some x => Ok (round1 (PrimFloat.mul x 0x1.ccccccccccccdp+1%float))
  | None => Raise OverflowError
  end.
End WeatherAPIRequest.

(** ** models/response.py *)

Module TripResponse.
Record t : Type := mk {
  id : Z;
  name : string;
  destination : string;
  start_date : date;
  end_date : date;
  notes : option string;
  created_at : datetime;
  updated_at : datetime;
  duration_days : Z
}.

Definition from_trip (trip : Trip.t) : t :=
  {| id := id_value (Trip.id trip);
     name := Trip.name trip;
     destination := Trip.destination trip;
     start_date := Trip.start_date trip;
     end_date := Trip.end_date trip;
     notes := Trip.notes trip;
     created_at := Trip.created_at trip;
     updated_at := Trip.updated_at trip;
     duration_days := Trip.duration_days trip |}.
End TripResponse.

Module WeatherResponse.
Record t : Type := mk {
  location : string;
  temperature : float;
  condition : string;
  humidity : Z;
  wind_speed : float;
  updated_at : datetime
}.

(** Construction of the model: the numbers are coerced to the field
    types and checked against the field bounds; a failure is pydantic's
    [ValidationError], a [ValueError]. *)
Definition create (location : string) (temperature : pynum)
    (condition : string) (humidity : pynum) (wind_speed : pynum)
    (updated_at : datetime) : result t :=
  match as_float temperature, as_percent humidity,
        as_nonneg_float wind_speed with
  | Some t, Some h, Some w => Ok (mk location t condition h w updated_at)
  | _, _, _ => Raise (ValueError "validation error for WeatherResponse")
  end.
End WeatherResponse.

Module MockWeatherResponse.
Definition conditions : list string :=
  ["Sunny"; "Partly Cloudy"; "Cloudy"; "Rainy"]%string.

(** [hash] is the built-in hash of the running interpreter. *)
Definition generate_mock_weather (hash : string -> Z) (now : datetime)
    (location : string) : result WeatherResponse.t :=
  let location_hash := hash (lower location) mod 100 in
  WeatherResponse.create
    location
    (PInt (15 + location_hash mod 25))
    (nth (Z.to_nat (location_hash mod 4)) conditions EmptyString)
    (PInt (40 + location_hash mod 50))
    (PInt (5 + location_hash mod 20))
    now.
End MockWeatherResponse.

(** ** repositories/trip_repository.py *)

Module TripRepository.
Definition get_by_id (trip_id : Z) (tbl : list Trip.t) : option Trip.t :=
  find (fun r => same_id (Trip.id r) (Some trip_id)) tbl.

(** [session.add(trip); commit; refresh] for an object without key. *)
Definition create (trip : Trip.t) (tbl : list Trip.t)
    : Trip.t * list Trip.t :=
  let row :=
    Trip.mk (Some (next_id (map Trip.id tbl))) (Trip.name trip)
      (Trip.destination trip) (Trip.start_date trip) (Trip.end_date trip)
      (Trip.notes trip) (Trip.created_at trip) (Trip.updated_at trip) in
  (row, tbl ++ [row]).

(** [session.add(trip); commit; refresh] for a loaded object. *)
Definition update (trip : Trip.t) (tbl : list Trip.t)
    : Trip.t * list Trip.t :=
  (trip,
   map (fun r => if same_id (Trip.id r) (Trip.id trip) then trip else r) tbl).

Definition delete (trip_id : Z) (tbl : list Trip.t) : bool * list Trip.t :=
  match get_by_id trip_id tbl with
  | None => (false, tbl)
  | Some trip =>
      (true, filter (fun r => negb (same_id (Trip.id r) (Trip.id trip))) tbl)
  end.
(** The insertion step of [ORDER BY created_at DESC]: rows with equal
    timestamps stay in rowid order (the query itself does not fix their
    order). *)
Fixpoint insert_desc (trip : Trip.t) (sorted : list Trip.t) : list Trip.t :=
  match sorted with
  | [] => [trip]
  | x :: rest =>
      if Trip.created_at x <=? Trip.created_at trip
      then trip :: sorted
      else x :: insert_desc trip rest
  end.

(** [select(Trip).order_by(desc(Trip.created_at))], [.all()] *)
Definition get_all (tbl : list Trip.t) : list Trip.t :=
  fold_right insert_desc [] tbl.

(** [select(Trip.id).where(Trip.id == trip_id)], [.first() is not None] *)
Definition exists_ (trip_id : Z) (tbl : list Trip.t) : bool :=
  existsb (fun i => same_id i (Some trip_id)) (map Trip.id tbl).
End TripRepository.

(** ** repositories/weather_repository.py *)

Module WeatherRepository.
(** [select(WeatherCache).where(WeatherCache.location == location)],
    [.first()] *)
Definition select_first (location : string) (tbl : list WeatherCache.t)
    : option WeatherCache.t :=
  find (fun r => String.eqb (WeatherCache.location r) location) tbl.

(** [session.delete(weather_cache)] *)
Definition session_delete (weather_cache : WeatherCache.t)
    (tbl : list WeatherCache.t) : list WeatherCache.t :=
  filter (fun r => negb (same_id (WeatherCache.id r)
                                 (WeatherCache.id weather_cache))) tbl.

Definition get_cached_weather (now : datetime) (location : string)
    (tbl : list WeatherCache.t)
    : option WeatherCache.t * list WeatherCache.t :=
  match select_first location tbl with
  | None => (None, tbl)
  | Some weather_cache =>
      if WeatherCache.is_expired now weather_cache
      then (None, session_delete weather_cache tbl)
      else (Some weather_cache, tbl)
  end.

(** The assignments of the update branch of [store_weather_cache]. *)
Definition overwrite (now : datetime) (weather_cache : WeatherCache.t)
    (existing_cache : WeatherCache.t) : WeatherCache.t :=
  WeatherCache.mk
    (WeatherCache.id existing_cache)
    (WeatherCache.location existing_cache)
    (WeatherCache.temperature weather_cache)
    (WeatherCache.condition weather_cache)
    (WeatherCache.humidity weather_cache)
    (WeatherCache.wind_speed weather_cache)
    (WeatherCache.updated_at weather_cache)
    now.

(** The row [session.add] writes for a new object: an object without key
    gets the next one. *)
Definition with_key (weather_cache : WeatherCache.t)
    (tbl : list WeatherCache.t) : WeatherCache.t :=
  WeatherCache.mk
    (match WeatherCache.id weather_cache with
     | None => Some (next_id (map WeatherCache.id tbl))
     | Some i => Some i
     end)
    (WeatherCache.location weather_cache)
    (WeatherCache.temperature weather_cache)
    (WeatherCache.condition weather_cache)
    (WeatherCache.humidity weather_cache)
    (WeatherCache.wind_speed weather_cache)
    (WeatherCache.updated_at weather_cache)
    (WeatherCache.cached_at weather_cache).

(** An explicit key of a new object that a row of the table already
    carries. *)
Definition key_taken (weather_cache : WeatherCache.t)
    (tbl : list WeatherCache.t) : bool :=
  match WeatherCache.id weather_cache with
  | Some i => existsb (fun r => same_id (WeatherCache.id r) (Some i)) tbl
  | None => false
  end.

(** The integers of a new object can be bound. *)
Definition bindable (weather_cache : WeatherCache.t) : bool :=
  int64 (WeatherCache.humidity weather_cache)
  && match WeatherCache.id weather_cache with
     | Some i => int64 i
     | None => true
     end.

(** The read inside the write commits its deletion of an expired entry.
    The [commit] of the write itself then binds the values (an integer out
    of range raises [OverflowError]) and runs the statement (a NaN in a
    float column or a key already taken raises [IntegrityError]); when it
    raises, the table stays as the read left it. *)
Definition store_weather_cache (now : datetime)
    (weather_cache : WeatherCache.t) (tbl : list WeatherCache.t)
    : result WeatherCache.t * list WeatherCache.t :=
  let (existing, tbl1) :=
    get_cached_weather now (WeatherCache.location weather_cache) tbl in
  match existing with
  | Some existing_cache =>
      if negb (int64 (WeatherCache.humidity weather_cache))
      then (Raise OverflowError, tbl1)
      else if WeatherCache.has_null weather_cache
      then (Raise IntegrityError, tbl1)
      else
        (Ok (WeatherCache.stored (overwrite now weather_cache existing_cache)),
         map (fun r => if same_id (WeatherCache.id r)
                                  (WeatherCache.id existing_cache)
                       then WeatherCache.stored (overwrite now weather_cache r)
                       else r) tbl1)
  | None =>
      if negb (bindable weather_cache)
      then (Raise OverflowError, tbl1)
      else if WeatherCache.has_null weather_cache
              || key_taken weather_cache tbl1
      then (Raise IntegrityError, tbl1)
      else
        let row := WeatherCache.stored (with_key weather_cache tbl1) in
        (Ok row, tbl1 ++ [row])
  end.

(** The loop of [cleanup_expired_cache] over the rows read at its start. *)
Fixpoint cleanup_loop (now : datetime)
    (all_cached_weather : list WeatherCache.t)
    (tbl : list WeatherCache.t) (expired_count : Z)
    : Z * list WeatherCache.t :=
  match all_cached_weather with
  | [] => (expired_count, tbl)
  | weather_cache :: rest =>
      if WeatherCache.is_expired now weather_cache
      then cleanup_loop now rest (session_delete weather_cache tbl)
             (expired_count + 1)
      else cleanup_loop now rest tbl expired_count
  end.

Definition cleanup_expired_cache (now : datetime)
    (tbl : list WeatherCache.t) : Z * list WeatherCache.t :=
  cleanup_loop now tbl tbl 0.

Definition clear_location_cache (location : string)
    (tbl : list WeatherCache.t) : bool * list WeatherCache.t :=
  match select_first location tbl with
  | None => (false, tbl)
  | Some weather_cache => (true, session_delete weather_cache tbl)
  end.

Definition get_all_cached_locations (now : datetime)
    (tbl : list WeatherCache.t) : list string :=
  map WeatherCache.location
    (filter (fun r => negb (WeatherCache.is_expired now r)) tbl).

Definition exists_ (now : datetime) (location : string)
    (tbl : list WeatherCache.t) : bool * list WeatherCache.t :=
  let (cached_weather, tbl') := get_cached_weather now location tbl in
  (match cached_weather with Some _ => true | None => false end, tbl').
End WeatherRepository.

(** ** services/trip_service.py *)

Module TripService.
Definition not_found (trip_id : Z) : exn :=
  HTTPException 404
    ("Trip with id " ++ NilZero.string_of_int (Z.to_int trip_id)
                     ++ " not found")%string.

Definition create_trip (now : datetime) (trip_data : TripCreate.t)
    (tbl : list Trip.t) : result TripResponse.t * list Trip.t :=
  let trip :=
    Trip.mk None (TripCreate.name trip_data)
      (TripCreate.destination trip_data) (TripCreate.start_date trip_data)
      (TripCreate.end_date trip_data) (TripCreate.notes trip_data) now now in
  let (created_trip, tbl') := TripRepository.create trip tbl in
  (Ok (TripResponse.from_trip created_trip), tbl').

(** [setattr(existing_trip, field, value)] for one field of [update_data]:
    the attribute keeps its value when the field was left out. *)
Definition setattr {A : Type} (f : field A) (current : option A) : option A :=
  match f with
  | Unset => current
  | Provided v => v
  end.

(** The columns [name], [destination], [start_date] and [end_date] are
    NOT NULL: committing a null in one of them fails in the store and
    leaves the table as it was. *)
Definition update_trip (now : datetime) (trip_id : Z)
    (updates : TripUpdate.t) (tbl : list Trip.t)
    : result TripResponse.t * list Trip.t :=
  match TripRepository.get_by_id trip_id tbl with
  | None => (Raise (not_found trip_id), tbl)
  | Some existing_trip =>
      match setattr (TripUpdate.name updates) (Some (Trip.name existing_trip)),
            setattr (TripUpdate.destination updates)
                    (Some (Trip.destination existing_trip)),
            setattr (TripUpdate.start_date updates)
                    (Some (Trip.start_date existing_trip)),
            setattr (TripUpdate.end_date updates)
                    (Some (Trip.end_date existing_trip))
      with
      | Some name, Some destination, Some start_date, Some end_date =>
          let trip :=
            Trip.mk (Trip.id existing_trip) name destination start_date
              end_date
              (setattr (TripUpdate.notes updates) (Trip.notes existing_trip))
              (Trip.created_at existing_trip)
              now in
          let (updated_trip, tbl') := TripRepository.update trip tbl in
          (Ok (TripResponse.from_trip updated_trip), tbl')
      | _, _, _, _ => (Raise IntegrityError, tbl)
      end
  end.

Definition delete_trip (trip_id : Z) (tbl : list Trip.t)
    : result unit * list Trip.t :=
  let (deleted, tbl') := TripRepository.delete trip_id tbl in
  if deleted then (Ok tt, tbl') else (Raise (not_found trip_id), tbl').
Definition get_all_trips (tbl : list Trip.t) : list TripResponse.t :=
  map TripResponse.from_trip (TripRepository.get_all tbl).

Definition get_trip_by_id (trip_id : Z) (tbl : list Trip.t)
    : result TripResponse.t :=
  match TripRepository.get_by_id trip_id tbl with
  | None => Raise (not_found trip_id)
  | Some trip => Ok (TripResponse.from_trip trip)
  end.
End TripService.

(** ** services/weather_service.py *)

(** What [response.json()] and the construction of [WeatherAPIRequest]
    from it make of the body of a successful response; [msg] is the text
    of the exception raised.  A [Payload] holds the four validated fields,
    with JSON numbers as the values of [main] and [wind] and numbers or
    strings inside the weather entries (payloads with other values there
    are not covered). *)
Inductive body : Type :=
| InvalidJson (msg : string)        (* [json()] raises a [ValueError] *)
| NotAnObject                       (* unpacking a non-mapping: [TypeError] *)
| InvalidShape (msg : string)       (* pydantic [ValidationError] *)
| Payload (weather_request : WeatherAPIRequest.t).

(** What [client.get] followed by [raise_for_status] meets. *)
Inductive http_outcome : Type :=
| Timeout
| TransportError (msg : string)
| Response (status_code : Z) (b : body).

(** The process and its surroundings: the configured credential
    ([WEATHER_API_KEY]), the interpreter's string hash, and the provider's
    answer to a request for a location. *)
Record Env : Type := mkEnv {
  api_key : option string;
  hash : string -> Z;
  http_get : string -> http_outcome
}.

(** The cache table, and the locations requested from the provider so far
    (most recent first). *)
Record World : Type := mkWorld {
  cache : list WeatherCache.t;
  requests : list string
}.

Module WeatherService.
Definition unavailable (msg : string) : exn := HTTPException 503 msg.

Definition key_configured (env : Env) : bool :=
  match api_key env with
  | Some k => truthy k
  | None => false
  end.

(** The second [try] block of [_fetch_weather_from_api]: [KeyError],
    [IndexError] and [ValueError] become a 503 whose detail ends with the
    text of the exception; anything else passes.  The text pydantic gives
    to a rejected [WeatherResponse] is not modelled: the word "validation"
    stands for it. *)
Definition parse_response (now : datetime) (b : body)
    : result WeatherResponse.t :=
  match b with
  | InvalidJson msg =>
      Raise (unavailable ("Invalid weather API response: " ++ msg))
  | NotAnObject => Raise TypeError
  | InvalidShape msg =>
      Raise (unavailable ("Invalid weather API response: " ++ msg))
  | Payload weather_request =>
      match dict_get (WeatherAPIRequest.main weather_request) "temp" with
      | None => Raise (unavailable "Invalid weather API response: 'temp'")
      | Some temp =>
      match WeatherAPIRequest.weather weather_request with
      | [] =>
          Raise (unavailable
                   "Invalid weather API response: list index out of range")
      | first :: _ =>
      match dict_get first "description" with
      | None =>
          Raise (unavailable "Invalid weather API response: 'description'")
      | Some (VNum _) => Raise AttributeError
      | Some (VStr description) =>
      match dict_get (WeatherAPIRequest.main weather_request) "humidity" with
      | None => Raise (unavailable "Invalid weather API response: 'humidity'")
      | Some humidity =>
      match WeatherAPIRequest.to_kmh
              (match dict_get (WeatherAPIRequest.wind weather_request) "speed"
               with Some speed => speed | None => PInt 0 end)
      with
      | Raise e => Raise e
      | Ok wind_speed =>
      match WeatherResponse.create
              (WeatherAPIRequest.name weather_request)
              temp (title description) humidity (PFloat wind_speed) now
      with
      | Ok weather_response => Ok weather_response
      | Raise _ =>
          Raise (unavailable "Invalid weather API response: validation")
      end end end end end end
  end.

Definition is_success (status_code : Z) : bool :=
  (200 <=? status_code) && (status_code <=? 299).

Definition _fetch_weather_from_api (env : Env) (now : datetime)
    (location : string) (reqs : list string)
    : result WeatherResponse.t * list string :=
  if negb (key_configured env)
  then (Raise (ValueError "Weather API key not configured"), reqs)
  else
    (match http_get env location with
     | Timeout => Raise (HTTPException 504 "Weather service timeout")
     | TransportError msg =>
         Raise (unavailable ("Weather service error: " ++ msg))
     | Response status_code b =>
         if is_success status_code then parse_response now b
         else if status_code =? 404
         then Raise (HTTPException 404
                       ("Location '" ++ location ++ "' not found"))
         else if status_code =? 401
         then Raise (unavailable "Weather service authentication failed")
         else Raise (unavailable "Weather service unavailable")
     end,
     location :: reqs).

Definition get_weather_for_location (env : Env) (now : datetime)
    (location : string) (w : World) : result WeatherResponse.t * World :=
  if negb (truthy location) || negb (truthy (strip location))
  then (Raise (HTTPException 400 "Location cannot be empty"), w)
  else
    let location := strip location in
    let (cached_weather, tbl1) :=
      WeatherRepository.get_cached_weather now location (cache w) in
    match cached_weather with
    | Some c =>
        (WeatherResponse.create
           (WeatherCache.location c) (PFloat (WeatherCache.temperature c))
           (WeatherCache.condition c) (PInt (WeatherCache.humidity c))
           (PFloat (WeatherCache.wind_speed c)) (WeatherCache.updated_at c),
         mkWorld tbl1 (requests w))
    | None =>
        let (fetched, reqs) :=
          _fetch_weather_from_api env now location (requests w) in
        let produced :=
          match fetched with
          | Ok weather_response => Ok weather_response
          | Raise _ =>
              MockWeatherResponse.generate_mock_weather (hash env) now location
          end in
        match produced with
        | Raise e => (Raise e, mkWorld tbl1 reqs)
        | Ok weather_response =>
            let weather_cache :=
              WeatherCache.mk None
                (WeatherResponse.location weather_response)
                (WeatherResponse.temperature weather_response)
                (WeatherResponse.condition weather_response)
                (WeatherResponse.humidity weather_response)
                (WeatherResponse.wind_speed weather_response)
                (WeatherResponse.updated_at weather_response)
                now in
            let (stored, tbl2) :=
              WeatherRepository.store_weather_cache now weather_cache tbl1 in
            match stored with
            | Raise e => (Raise e, mkWorld tbl2 reqs)
            | Ok _ => (Ok weather_response, mkWorld tbl2 reqs)
            end
        end
    end.

Definition clear_cache_for_location (location : string) (w : World)
    : bool * World :=
  let (cleared, tbl) :=
    WeatherRepository.clear_location_cache location (cache w) in
  (cleared, mkWorld tbl (requests w)).

Definition cleanup_expired_cache (now : datetime) (w : World) : Z * World :=
  let (n, tbl) := WeatherRepository.cleanup_expired_cache now (cache w) in
  (n, mkWorld tbl (requests w)).

Definition get_cached_locations (now : datetime) (w : World) : list string :=
  WeatherRepository.get_all_cached_locations now (cache w).

Definition has_cached_weather (now : datetime) (location : string)
    (w : World) : bool * World :=
  let (found, tbl) := WeatherRepository.exists_ now location (cache w) in
  (found, mkWorld tbl (requests w)).
End WeatherService.

(** ** Invariants of the cache table *)

(** The primary key: no two rows carry the same [id]. *)
Definition pk_unique (tbl : list WeatherCache.t) : Prop :=
  NoDup (map WeatherCache.id tbl).

(** At most one entry per location. *)
Definition one_per_location (tbl : list WeatherCache.t) : Prop :=
  NoDup (map WeatherCache.location tbl).

(** Every row satisfies the column constraints. *)
Definition rows_in_range (tbl : list WeatherCache.t) : Prop :=
  Forall (fun r => WeatherCache.in_range r = true) tbl.

(** Thirty minutes, in microseconds. *)
Definition thirty_minutes : Z := 1800 * 1000000.

(** ** Sample data *)

Definition minute : Z := 60 * 1000000.

Definition paris_row : WeatherCache.t :=
  WeatherCache.mk (Some 1) "Paris" 21.5%float "Clear Sky" 40 12.5%float
    (100 * minute) (100 * minute).

Definition tokyo_row : WeatherCache.t :=
  WeatherCache.mk (Some 2) "Tokyo" 28%float "Rainy" 80 7%float
    (60 * minute) (60 * minute).

Definition sample_cache : list WeatherCache.t := [paris_row; tokyo_row].


(** ** Vocabulary of the statements *)

(** [lo <= x < hi] on floats. *)
Definition float_in (lo hi x : float) : bool :=
  PrimFloat.leb lo x && PrimFloat.ltb x hi.

(** The field bounds of a [WeatherResponse]. *)
Definition response_in_range (r : WeatherResponse.t) : bool :=
  (0 <=? WeatherResponse.humidity r) && (WeatherResponse.humidity r <=? 100)
  && PrimFloat.leb 0%float (WeatherResponse.wind_speed r).

(** The [WeatherCache] object [get_weather_for_location] builds from a
    response before storing it. *)
Definition cache_entry_of (r : WeatherResponse.t) (now : datetime)
    : WeatherCache.t :=
  WeatherCache.mk None
    (WeatherResponse.location r) (WeatherResponse.temperature r)
    (WeatherResponse.condition r) (WeatherResponse.humidity r)
    (WeatherResponse.wind_speed r) (WeatherResponse.updated_at r) now.

(** The [WeatherResponse] a cache hit returns for a row. *)
Definition response_of_row (c : WeatherCache.t) : WeatherResponse.t :=
  WeatherResponse.mk
    (WeatherCache.location c) (WeatherCache.temperature c)
    (WeatherCache.condition c) (WeatherCache.humidity c)
    (WeatherCache.wind_speed c) (WeatherCache.updated_at c).

(** The values of an object that the commit of a write accepts: a
    humidity that can be bound, and no NaN in a float column. *)
Definition storable (wc : WeatherCache.t) : bool :=
  int64 (WeatherCache.humidity wc) && negb (WeatherCache.has_null wc).

(** The response whose floats are those the store keeps of [r]'s. *)
Definition stored_response (r : WeatherResponse.t) : WeatherResponse.t :=
  WeatherResponse.mk
    (WeatherResponse.location r) (stored_real (WeatherResponse.temperature r))
    (WeatherResponse.condition r) (WeatherResponse.humidity r)
    (stored_real (WeatherResponse.wind_speed r)) (WeatherResponse.updated_at r).




(** The index the mock generator derives from a location. *)
Definition mock_index (hash : string -> Z) (location : string) : Z :=
  hash (lower location) mod 100.

(** A provider that knows one city, and two processes: one with a
    credential and one without. *)
Definition london_payload : WeatherAPIRequest.t :=
  WeatherAPIRequest.mk
    [("temp", PFloat 18.5%float); ("humidity", PInt 72)]%string
    [[("id", VNum (PInt 500)); ("description", VStr "light rain")]]%string
    [("speed", PFloat 5%float)]%string
    "London".

Definition sample_provider (q : string) : http_outcome :=
  if String.eqb q "london" then Response 200 (Payload london_payload)
  else Response 404 (InvalidJson "Expecting value").

Definition keyed_env : Env :=
  mkEnv (Some "secret"%string) (fun _ => 42) sample_provider.

Definition keyless_env : Env := mkEnv None (fun _ => 42) sample_provider.

Definition empty_world : World := mkWorld [] [].



Definition nan_payload : WeatherAPIRequest.t :=
  WeatherAPIRequest.mk
    [("temp", PFloat PrimFloat.nan); ("humidity", PInt 50)]%string
    [[("description", VStr "mist")]]%string
    [("speed", PInt 1)]%string
    "Tromso".

Definition nan_env : Env :=
  mkEnv (Some "secret"%string) (fun _ => 42)
    (fun _ => Response 200 (Payload nan_payload)).

(** ** The interpreter's string hash

    CPython salts [hash] of a [str] with a secret chosen when the process
    starts: random by default, derived from [PYTHONHASHSEED] when that is
    set.  This is the hash of CPython 3.11 and later on a 64-bit platform
    (SipHash-1-3 over the one-byte representation of the string), with the
    secret derived from a seed as the interpreter does.  It is one
    possible value of the [hash] field of [Env]. *)

Module CPython.
Definition u64 (x : Z) : Z := x mod 2 ^ 64.

Definition rotate (x b : Z) : Z :=
  u64 (Z.lor (Z.shiftl x b) (Z.shiftr x (64 - b))).

Definition half_round (a b c d s t : Z) : Z * Z * Z * Z :=
  let a := u64 (a + b) in
  let c := u64 (c + d) in
  let b := Z.lxor (rotate b s) a in
  let d := Z.lxor (rotate d t) c in
  let a := rotate a 32 in
  (a, b, c, d).

Definition single_round (v : Z * Z * Z * Z) : Z * Z * Z * Z :=
  let '(v0, v1, v2, v3) := v in
  let '(v0, v1, v2, v3) := half_round v0 v1 v2 v3 13 16 in
  let '(v2, v1, v0, v3) := half_round v2 v1 v0 v3 17 21 in
  (v0, v1, v2, v3).

Definition compress (m : Z) (v : Z * Z * Z * Z) : Z * Z * Z * Z :=
  let '(v0, v1, v2, v3) := v in
  let '(v0, v1, v2, v3) := single_round (v0, v1, v2, Z.lxor v3 m) in
  (Z.lxor v0 m, v1, v2, v3).

Fixpoint absorb (src : string) (t k : Z) (v : Z * Z * Z * Z)
    : Z * Z * Z * Z * Z :=
  match src with
  | EmptyString => (v, t)
  | String c rest =>
      let t' := Z.lor t (Z.shiftl (Z.of_N (N_of_ascii c)) (8 * k)) in
      if k =? 7 then absorb rest 0 0 (compress t' v)
      else absorb rest t' (k + 1) v
  end.

Definition siphash13 (k0 k1 : Z) (src : string) : Z :=
  let v := (Z.lxor k0 0x736f6d6570736575, Z.lxor k1 0x646f72616e646f6d,
            Z.lxor k0 0x6c7967656e657261, Z.lxor k1 0x7465646279746573) in
  let '(v, t) := absorb src 0 0 v in
  let b := Z.lor (u64 (Z.shiftl (Z.of_nat (String.length src)) 56)) t in
  let '(v0, v1, v2, v3) := compress b v in
  let '(v0, v1, v2, v3) :=
    single_round (single_round (single_round (v0, v1, Z.lxor v2 0xff, v3))) in
  Z.lxor (Z.lxor v0 v1) (Z.lxor v2 v3).

Fixpoint lcg_urandom (x : Z) (size : nat) : list Z :=
  match size with
  | O => []
  | S n =>
      let x := (x * 214013 + 2531011) mod 2 ^ 32 in
      Z.land (Z.shiftr x 16) 255 :: lcg_urandom x n
  end.

Definition le64 (bytes : list Z) : Z :=
  fold_right (fun b acc => b + 256 * acc) 0 bytes.

Definition secret (seed : Z) : Z * Z :=
  if seed =? 0 then (0, 0)
  else let buf := lcg_urandom seed 24 in
       (le64 (firstn 8 buf), le64 (firstn 8 (skipn 8 buf))).

Definition str_hash (seed : Z) (s : string) : Z :=
  match s with
  | EmptyString => 0
  | _ =>
      let '(k0, k1) := secret seed in
      let x := siphash13 k0 k1 s in
      let x := if 2 ^ 63 <=? x then x - 2 ^ 64 else x in
      if x =? -1 then -2 else x
  end.
End CPython.

(** ** Sample trip *)

Definition rome_trip : Trip.t :=
  Trip.mk (Some 1) "Rome" "Rome, Italy" 100 110 None 5 5.

Definition end_date_only (e : date) : TripUpdate.t :=
  TripUpdate.mk Unset Unset Unset (Provided (Some e)) Unset.

Definition notes_only (v : option string) : TripUpdate.t :=
  TripUpdate.mk Unset Unset Unset Unset (Provided v).

(** The row the keyless process caches for "Paris" at minute 10 (its hash
    is constant, the index is 42). *)
Definition paris_mock_row : WeatherCache.t :=
  WeatherCache.mk (Some 1) "Paris" 32%float "Cloudy" 82 7%float
    (10 * minute) (10 * minute).

(** A row whose temperature and wind speed lie in the mock generator's
    ranges. *)
Definition mock_like (c : WeatherCache.t) : bool :=
  float_in 15 40 (WeatherCache.temperature c)
  && float_in 5 25 (WeatherCache.wind_speed c).

(** ** routes/trips.py *)

Module TripRoutes.
(** [except ValueError as e: raise HTTPException(status_code=400,
    detail=str(e))] *)
Definition value_error_to_400 {A : Type} (r : result A) : result A :=
  match r with
  | Raise (ValueError msg) => Raise (HTTPException 400 msg)
  | _ => r
  end.

Definition get_all_trips (tbl : list Trip.t) : list TripResponse.t :=
  TripService.get_all_trips tbl.

Definition create_trip (now : datetime) (trip_data : TripCreate.t)
    (tbl : list Trip.t) : result TripResponse.t * list Trip.t :=
  let (r, tbl') := TripService.create_trip now trip_data tbl in
  (value_error_to_400 r, tbl').

Definition get_trip_by_id (trip_id : Z) (tbl : list Trip.t)
    : result TripResponse.t :=
  TripService.get_trip_by_id trip_id tbl.

Definition update_trip (now : datetime) (trip_id : Z)
    (updates : TripUpdate.t) (tbl : list Trip.t)
    : result TripResponse.t * list Trip.t :=
  let (r, tbl') := TripService.update_trip now trip_id updates tbl in
  (value_error_to_400 r, tbl').

Definition delete_trip (trip_id : Z) (tbl : list Trip.t)
    : result unit * list Trip.t :=
  TripService.delete_trip trip_id tbl.
End TripRoutes.

(** ** routes/weather.py *)

Module WeatherRoutes.
Definition get_weather_for_location (env : Env) (now : datetime)
    (location : string) (w : World) : result WeatherResponse.t * World :=
  if negb (truthy location) || negb (truthy (strip location))
  then (Raise (HTTPException 400 "Location cannot be empty"), w)
  else WeatherService.get_weather_for_location env now location w.

(** The trip is read first; its destination is the location. *)
Definition get_weather_for_trip (env : Env) (now : datetime) (trip_id : Z)
    (trips : list Trip.t) (w : World) : result WeatherResponse.t * World :=
  match TripService.get_trip_by_id trip_id trips with
  | Raise e => (Raise e, w)
  | Ok trip =>
      WeatherService.get_weather_for_location env now
        (TripResponse.destination trip) w
  end.

Definition get_cached_weather_locations (now : datetime) (w : World)
    : list string :=
  WeatherService.get_cached_locations now w.

(** The cache is cleared for the trimmed location; the message quotes the
    location as given. *)
Definition clear_weather_cache_for_location (location : string) (w : World)
    : result string * World :=
  if negb (truthy location) || negb (truthy (strip location))
  then (Raise (HTTPException 400 "Location cannot be empty"), w)
  else
    let (cleared, w') :=
      WeatherService.clear_cache_for_location (strip location) w in
    (Ok (if cleared
         then "Cache cleared for location: " ++ location
         else "No cache found for location: " ++ location)%string,
     w').

Definition cleanup_expired_weather_cache (now : datetime) (w : World)
    : string * World :=
  let (cleaned_count, w') := WeatherService.cleanup_expired_cache now w in
  (("Cleaned up " ++ NilZero.string_of_int (Z.to_int cleaned_count)
                  ++ " expired cache entries")%string,
   w').
End WeatherRoutes.

(** ** Vocabulary of the trip table *)

(** The primary key of the trip table. *)
Definition trip_pk_unique (tbl : list Trip.t) : Prop :=
  NoDup (map Trip.id tbl).

(** A field of an update that does not carry an explicit null. *)
Definition not_null {A : Type} (f : field A) : bool :=
  match f with
  | Provided None => false
  | _ => true
  end.

(** The value of an attribute after [setattr] of a field that is not an
    explicit null. *)
Definition merged {A : Type} (f : field A) (current : A) : A :=
  match f with
  | Provided (Some v) => v
  | _ => current
  end.

(** A second stored trip, created later than [rome_trip]. *)
Definition oslo_trip : Trip.t :=
  Trip.mk (Some 2) "Fjords" "Oslo" 200 207 (Some "ferry"%string) 8 8.

Definition sample_trips : list Trip.t := [rome_trip; oslo_trip].

(** * Properties *)

Ltac nodup_by_computation :=
  repeat (constructor; [simpl; intuition discriminate|]); constructor.

(** ** Keys and lookups *)

Lemma same_id_eq (a b : option Z) : same_id a b = true <-> a = b.
Proof.
  destruct a as [x|], b as [y|]; simpl; split; intro H;
    try discriminate; try reflexivity.
  - apply Z.eqb_eq in H. now subst.
  - injection H as ->. apply Z.eqb_refl.
Qed.

Lemma same_id_refl (a : option Z) : same_id a a = true.
Proof. now apply same_id_eq. Qed.

Lemma id_value_le_max (ids : list (option Z)) (i : option Z) :
  In i ids ->
  id_value i <= fold_right (fun i acc => Z.max (id_value i) acc) 0 ids.
Proof.
  induction ids as [|a ids IH]; simpl; [contradiction|].
  intros [->|Hin]; [lia|]. specialize (IH Hin). lia.
Qed.

(** The key given to a new row is carried by no row of the table. *)
Lemma next_id_fresh (ids : list (option Z)) :
  ~ In (Some (next_id ids)) ids.
Proof.
  intro Hin. apply id_value_le_max in Hin.
  unfold next_id in Hin. simpl in Hin. lia.
Qed.

(** Rows identified by a key: a column whose values do not repeat. *)
Section Keyed.
Variables (Row Key : Type) (key : Row -> Key).

Lemma keyed_injective (rows : list Row) (x y : Row) :
  NoDup (map key rows) -> In x rows -> In y rows -> key x = key y ->
  x = y.
Proof.
  induction rows as [|a rows IH]; simpl; intros ND Hx Hy E;
    [contradiction|].
  inversion ND as [|? ? Hnotin ND']; subst.
  destruct Hx as [->|Hx], Hy as [->|Hy]; auto.
  - exfalso. apply Hnotin. rewrite E. now apply in_map.
  - exfalso. apply Hnotin. rewrite <- E. now apply in_map.
Qed.

Lemma keyed_filter (keep : Row -> bool) (rows : list Row) :
  NoDup (map key rows) -> NoDup (map key (filter keep rows)).
Proof.
  induction rows as [|a rows IH]; simpl; intro ND;
    [constructor|].
  inversion ND as [|? ? Hnotin ND']; subst.
  destruct (keep a); simpl; auto.
  constructor; auto.
  intro Hin. apply Hnotin.
  apply in_map_iff in Hin as (x & E & Hx).
  apply filter_In in Hx as [Hx _].
  rewrite <- E. now apply in_map.
Qed.
End Keyed.

Lemma select_first_Some (loc : string) (tbl : list WeatherCache.t)
    (wc : WeatherCache.t) :
  WeatherRepository.select_first loc tbl = Some wc ->
  In wc tbl /\ WeatherCache.location wc = loc.
Proof.
  unfold WeatherRepository.select_first. intro H.
  apply find_some in H as [Hin E]. split; auto.
  now apply String.eqb_eq.
Qed.

Lemma select_first_None (loc : string) (tbl : list WeatherCache.t) :
  WeatherRepository.select_first loc tbl = None ->
  forall wc, In wc tbl -> WeatherCache.location wc <> loc.
Proof.
  unfold WeatherRepository.select_first. intros H wc Hin E.
  pose proof (find_none _ _ H wc Hin) as F. simpl in F.
  apply String.eqb_neq in F. contradiction.
Qed.

Lemma select_first_absent (loc : string) (tbl : list WeatherCache.t) :
  (forall wc, In wc tbl -> WeatherCache.location wc <> loc) ->
  WeatherRepository.select_first loc tbl = None.
Proof.
  intro H. destruct (WeatherRepository.select_first loc tbl) as [wc|] eqn:E; auto.
  apply select_first_Some in E as [Hin El]. now apply H in Hin.
Qed.

Lemma select_first_unique (tbl : list WeatherCache.t) (wc : WeatherCache.t) :
  one_per_location tbl -> In wc tbl ->
  WeatherRepository.select_first (WeatherCache.location wc) tbl = Some wc.
Proof.
  intros ND Hin.
  destruct (WeatherRepository.select_first (WeatherCache.location wc) tbl)
    as [x|] eqn:E.
  - apply select_first_Some in E as [Hx El]. f_equal.
    eapply keyed_injective; eauto.
  - exfalso. eapply select_first_None; eauto.
Qed.

Lemma session_delete_In (tbl : list WeatherCache.t) (wc : WeatherCache.t) :
  pk_unique tbl -> In wc tbl ->
  forall x, In x (WeatherRepository.session_delete wc tbl)
            <-> In x tbl /\ x <> wc.
Proof.
  intros PK Hin x. unfold WeatherRepository.session_delete.
  rewrite filter_In. split; intros [Hx H]; split; auto.
  - intros ->. rewrite same_id_refl in H. discriminate.
  - destruct (same_id (WeatherCache.id x) (WeatherCache.id wc)) eqn:E; auto.
    exfalso. apply H. apply same_id_eq in E.
    eapply keyed_injective; eauto.
Qed.

Lemma session_delete_one_per_location (tbl : list WeatherCache.t)
    (wc : WeatherCache.t) :
  one_per_location tbl ->
  one_per_location (WeatherRepository.session_delete wc tbl).
Proof. apply keyed_filter. Qed.

Lemma session_delete_pk_unique (tbl : list WeatherCache.t)
    (wc : WeatherCache.t) :
  pk_unique tbl -> pk_unique (WeatherRepository.session_delete wc tbl).
Proof. apply keyed_filter. Qed.

Lemma session_delete_location_gone (tbl : list WeatherCache.t)
    (wc : WeatherCache.t) :
  one_per_location tbl -> In wc tbl ->
  forall x, In x (WeatherRepository.session_delete wc tbl) ->
            WeatherCache.location x <> WeatherCache.location wc.
Proof.
  intros ND Hin x Hx E. unfold WeatherRepository.session_delete in Hx.
  apply filter_In in Hx as [Hx H].
  assert (x = wc) by (eapply keyed_injective; eauto).
  subst. rewrite same_id_refl in H. discriminate.
Qed.

Lemma is_expired_spec (now : datetime) (wc : WeatherCache.t) :
  WeatherCache.is_expired now wc = true
  <-> thirty_minutes < now - WeatherCache.cached_at wc.
Proof. unfold WeatherCache.is_expired, thirty_minutes. apply Z.ltb_lt. Qed.

Lemma is_expired_false (now : datetime) (wc : WeatherCache.t) :
  WeatherCache.is_expired now wc = false
  <-> now - WeatherCache.cached_at wc <= thirty_minutes.
Proof. unfold WeatherCache.is_expired, thirty_minutes. apply Z.ltb_ge. Qed.

(** After a miss, no entry for the location is left in the table. *)
Lemma get_cached_weather_miss (now : datetime) (loc : string)
    (tbl tbl' : list WeatherCache.t) :
  one_per_location tbl ->
  WeatherRepository.get_cached_weather now loc tbl = (None, tbl') ->
  one_per_location tbl'
  /\ forall x, In x tbl' -> WeatherCache.location x <> loc.
Proof.
  intros ND. unfold WeatherRepository.get_cached_weather.
  destruct (WeatherRepository.select_first loc tbl) as [wc|] eqn:E.
  - destruct (WeatherCache.is_expired now wc); intro H; inversion H; subst.
    apply select_first_Some in E as [Hin <-]. split.
    + now apply session_delete_one_per_location.
    + now apply session_delete_location_gone.
  - intro H; inversion H; subst. split; auto.
    now apply select_first_None.
Qed.

Lemma get_cached_weather_hit (now : datetime) (loc : string)
    (tbl tbl' : list WeatherCache.t) (wc : WeatherCache.t) :
  WeatherRepository.get_cached_weather now loc tbl = (Some wc, tbl') ->
  tbl' = tbl
  /\ WeatherRepository.select_first loc tbl = Some wc
  /\ WeatherCache.is_expired now wc = false.
Proof.
  unfold WeatherRepository.get_cached_weather.
  destruct (WeatherRepository.select_first loc tbl) as [x|] eqn:E;
    [|discriminate].
  destruct (WeatherCache.is_expired now x) eqn:X; [discriminate|].
  intro H; inversion H; subst. auto.
Qed.

Lemma sample_cache_pk_unique : pk_unique sample_cache.
Proof. unfold pk_unique. simpl. nodup_by_computation. Qed.

Lemma sample_cache_one_per_location : one_per_location sample_cache.
Proof. unfold one_per_location. simpl. nodup_by_computation. Qed.

(** ** The cache read: [get_cached_weather] *)

(** C5.  On a table with unique keys and at most one entry per location,
    [get_cached_weather] returns an entry exactly when the table holds an
    entry for the location whose age [now - cached_at] is at most thirty
    minutes, and then leaves the table alone; when the entry for the
    location is older it is deleted (its row and no other) and the result
    is absent; when the table has no entry for the location the result is
    absent and the table is unchanged. *)
Theorem get_cached_weather_spec (now : datetime) (loc : string)
    (tbl : list WeatherCache.t) :
  pk_unique tbl -> one_per_location tbl ->
  (forall wc,
      fst (WeatherRepository.get_cached_weather now loc tbl) = Some wc
      <-> In wc tbl /\ WeatherCache.location wc = loc
          /\ now - WeatherCache.cached_at wc <= thirty_minutes)
  /\ (forall wc, In wc tbl -> WeatherCache.location wc = loc ->
        now - WeatherCache.cached_at wc <= thirty_minutes ->
        WeatherRepository.get_cached_weather now loc tbl = (Some wc, tbl))
  /\ (forall wc, In wc tbl -> WeatherCache.location wc = loc ->
        thirty_minutes < now - WeatherCache.cached_at wc ->
        WeatherRepository.get_cached_weather now loc tbl
        = (None, WeatherRepository.session_delete wc tbl)
        /\ (forall x, In x (WeatherRepository.session_delete wc tbl)
                      <-> In x tbl /\ x <> wc)
        /\ (forall x, In x (WeatherRepository.session_delete wc tbl) ->
                      WeatherCache.location x <> loc))
  /\ ((forall wc, In wc tbl -> WeatherCache.location wc <> loc) ->
      WeatherRepository.get_cached_weather now loc tbl = (None, tbl)).
Proof.
  intros PK ND.
  assert (Fresh : forall wc, In wc tbl -> WeatherCache.location wc = loc ->
            now - WeatherCache.cached_at wc <= thirty_minutes ->
            WeatherRepository.get_cached_weather now loc tbl = (Some wc, tbl)).
  { intros wc Hin <- Age. unfold WeatherRepository.get_cached_weather.
    rewrite (select_first_unique tbl wc ND Hin).
    apply is_expired_false in Age. now rewrite Age. }
  assert (Stale : forall wc, In wc tbl -> WeatherCache.location wc = loc ->
            thirty_minutes < now - WeatherCache.cached_at wc ->
            WeatherRepository.get_cached_weather now loc tbl
            = (None, WeatherRepository.session_delete wc tbl)).
  { intros wc Hin <- Age. unfold WeatherRepository.get_cached_weather.
    rewrite (select_first_unique tbl wc ND Hin).
    apply is_expired_spec in Age. now rewrite Age. }
  split; [|split; [exact Fresh|split]].
  - intro wc. split.
    + intro H.
      destruct (WeatherRepository.get_cached_weather now loc tbl)
        as [r tbl'] eqn:E.
      simpl in H; subst r.
      apply get_cached_weather_hit in E as (_ & S & X).
      apply select_first_Some in S as [Hin El].
      now apply is_expired_false in X.
    + intros (Hin & El & Age). now rewrite (Fresh wc Hin El Age).
  - intros wc Hin El Age. split; [now apply Stale|split].
    + apply (session_delete_In tbl wc PK Hin).
    + subst loc. now apply session_delete_location_gone.
  - intro H. unfold WeatherRepository.get_cached_weather.
    now rewrite (select_first_absent loc tbl H).
Qed.

Lemma get_cached_weather_spec_witness :
  pk_unique sample_cache /\ one_per_location sample_cache
  /\ WeatherRepository.get_cached_weather (120 * minute) "Tokyo" sample_cache
     = (None, [paris_row])
  /\ WeatherRepository.get_cached_weather (120 * minute) "Paris" sample_cache
     = (Some paris_row, sample_cache).
Proof.
  pose proof sample_cache_pk_unique as PK.
  pose proof sample_cache_one_per_location as ND.
  destruct (get_cached_weather_spec (120 * minute) "Tokyo" sample_cache PK ND)
    as (_ & _ & Stale & _).
  destruct (get_cached_weather_spec (120 * minute) "Paris" sample_cache PK ND)
    as (_ & Fresh & _).
  split; [exact PK|split; [exact ND|split]].
  - assert (In tokyo_row sample_cache) as Hin by (simpl; auto).
    assert (thirty_minutes < 120 * minute - WeatherCache.cached_at tokyo_row)
      as Age by (vm_compute; reflexivity).
    exact (proj1 (Stale tokyo_row Hin eq_refl Age)).
  - assert (In paris_row sample_cache) as Hin by (simpl; auto).
    assert (120 * minute - WeatherCache.cached_at paris_row <= thirty_minutes)
      as Age by (vm_compute; discriminate).
    exact (Fresh paris_row Hin eq_refl Age).
Defined.

(** ** Floats in the store *)

Lemma is_zero_Prim2SF (x : float) :
  PrimFloat.is_zero x = true -> exists s, Prim2SF x = S754_zero s.
Proof.
  unfold PrimFloat.is_zero. rewrite FloatAxioms.eqb_spec.
  change (Prim2SF PrimFloat.zero) with (S754_zero false).
  destruct (Prim2SF x) as [s|s| |s m e]; try discriminate; eauto.
  - destruct s; discriminate.
  - destruct s; discriminate.
Qed.

Lemma Prim2SF_is_zero (x : float) (s : bool) :
  Prim2SF x = S754_zero s -> PrimFloat.is_zero x = true.
Proof.
  unfold PrimFloat.is_zero. rewrite FloatAxioms.eqb_spec. now intros ->.
Qed.

(** What the store keeps of a float, on its exact value: the zeros become
    the positive zero, every other value is kept. *)
Lemma stored_real_spec (x : float) :
  Prim2SF (stored_real x)
  = match Prim2SF x with
    | S754_zero _ => S754_zero false
    | sf => sf
    end.
Proof.
  unfold stored_real. destruct (PrimFloat.is_zero x) eqn:Z.
  - apply is_zero_Prim2SF in Z as [s ->]. reflexivity.
  - destruct (Prim2SF x) as [s|s| |s m e] eqn:E; auto.
    apply Prim2SF_is_zero in E. congruence.
Qed.

Lemma stored_real_idempotent (x : float) :
  stored_real (stored_real x) = stored_real x.
Proof.
  assert (E : stored_real x = if PrimFloat.is_zero x then PrimFloat.zero else x)
    by reflexivity.
  rewrite E. destruct (PrimFloat.is_zero x) eqn:Z; [reflexivity|].
  unfold stored_real. now rewrite Z.
Qed.

(** The comparisons do not see the difference: they take a zero of either
    sign for the same number. *)
Lemma stored_real_leb (a x : float) :
  PrimFloat.leb a (stored_real x) = PrimFloat.leb a x.
Proof.
  rewrite !FloatAxioms.leb_spec, stored_real_spec. unfold SFleb.
  destruct (Prim2SF x) as [s|s| |s m e]; auto.
Qed.

Lemma stored_real_ltb (x b : float) :
  PrimFloat.ltb (stored_real x) b = PrimFloat.ltb x b.
Proof.
  rewrite !FloatAxioms.ltb_spec, stored_real_spec. unfold SFltb.
  destruct (Prim2SF x) as [s|s| |s m e]; auto.
Qed.

(** The store returns the same number. *)
Lemma stored_real_eqb (x : float) :
  PrimFloat.is_nan x = false -> PrimFloat.eqb (stored_real x) x = true.
Proof.
  intro N. unfold stored_real. destruct (PrimFloat.is_zero x) eqn:Z.
  - rewrite FloatAxioms.eqb_spec.
    apply is_zero_Prim2SF in Z as [s ->]. reflexivity.
  - unfold PrimFloat.is_nan in N. now apply negb_false_iff in N.
Qed.

(** A float that some float is below is a number. *)
Lemma leb_not_nan (a x : float) :
  PrimFloat.leb a x = true -> PrimFloat.is_nan x = false.
Proof.
  unfold PrimFloat.is_nan. rewrite FloatAxioms.leb_spec, FloatAxioms.eqb_spec.
  unfold SFleb, SFeqb. intro H.
  destruct (Prim2SF x) as [s|s| |s m e].
  - reflexivity.
  - now destruct s.
  - destruct (Prim2SF a); discriminate.
  - cbn. destruct s; now rewrite Z.compare_refl, Pos.compare_refl.
Qed.

Lemma in_range_stored (c : WeatherCache.t) :
  WeatherCache.in_range (WeatherCache.stored c) = WeatherCache.in_range c.
Proof.
  unfold WeatherCache.in_range. cbn. now rewrite stored_real_leb.
Qed.

Lemma mock_like_stored (c : WeatherCache.t) :
  mock_like (WeatherCache.stored c) = mock_like c.
Proof.
  unfold mock_like, float_in. cbn.
  now rewrite !stored_real_leb, !stored_real_ltb.
Qed.

(** ** The cache write: [store_weather_cache] *)

Lemma overwrite_location (now : datetime) (wc r : WeatherCache.t) :
  WeatherCache.location (WeatherRepository.overwrite now wc r)
  = WeatherCache.location r.
Proof. reflexivity. Qed.

Lemma map_overwrite_locations (now : datetime) (wc : WeatherCache.t)
    (i : option Z) (tbl : list WeatherCache.t) :
  map WeatherCache.location
    (map (fun r => if same_id (WeatherCache.id r) i
                   then WeatherCache.stored
                          (WeatherRepository.overwrite now wc r)
                   else r) tbl)
  = map WeatherCache.location tbl.
Proof.
  rewrite map_map. apply map_ext. intro r.
  now destruct (same_id (WeatherCache.id r) i).
Qed.

Lemma one_per_location_app (tbl : list WeatherCache.t) (row : WeatherCache.t) :
  one_per_location tbl ->
  (forall x, In x tbl -> WeatherCache.location x <> WeatherCache.location row) ->
  one_per_location (tbl ++ [row]).
Proof.
  unfold one_per_location. intros ND Fresh.
  rewrite map_app. simpl.
  apply NoDup_app; auto.
  - repeat constructor. simpl. tauto.
  - intros l Hin [E|[]]. apply in_map_iff in Hin as (x & Ex & Hx).
    apply (Fresh x Hx). congruence.
Qed.

Lemma with_key_location (wc : WeatherCache.t) (tbl : list WeatherCache.t) :
  WeatherCache.location (WeatherRepository.with_key wc tbl)
  = WeatherCache.location wc.
Proof. reflexivity. Qed.

Lemma storable_spec (wc : WeatherCache.t) :
  storable wc = true
  <-> int64 (WeatherCache.humidity wc) = true
      /\ WeatherCache.has_null wc = false.
Proof.
  unfold storable. now rewrite andb_true_iff, negb_true_iff.
Qed.



(** The outcomes of the write: the commit is refused and the table is as
    the read left it, or the entry found is overwritten in place, or a row
    is appended to a table without entry for the location. *)
Lemma store_weather_cache_cases (now : datetime) (wc : WeatherCache.t)
    (tbl : list WeatherCache.t) :
  (exists err,
      WeatherRepository.store_weather_cache now wc tbl
      = (Raise err,
         snd (WeatherRepository.get_cached_weather now
                (WeatherCache.location wc) tbl))
      /\ (err = OverflowError \/ err = IntegrityError)
      /\ (storable wc = false \/ WeatherCache.id wc <> None))
  \/ (exists e,
        WeatherRepository.get_cached_weather now (WeatherCache.location wc) tbl
        = (Some e, tbl)
        /\ storable wc = true
        /\ WeatherRepository.store_weather_cache now wc tbl
           = (Ok (WeatherCache.stored (WeatherRepository.overwrite now wc e)),
              map (fun r => if same_id (WeatherCache.id r) (WeatherCache.id e)
                            then WeatherCache.stored
                                   (WeatherRepository.overwrite now wc r)
                            else r) tbl))
  \/ (exists tbl1,
        WeatherRepository.get_cached_weather now (WeatherCache.location wc) tbl
        = (None, tbl1)
        /\ storable wc = true
        /\ WeatherRepository.key_taken wc tbl1 = false
        /\ WeatherRepository.store_weather_cache now wc tbl
           = (Ok (WeatherCache.stored (WeatherRepository.with_key wc tbl1)),
              tbl1
              ++ [WeatherCache.stored (WeatherRepository.with_key wc tbl1)])).
Proof.
  unfold WeatherRepository.store_weather_cache, storable,
    WeatherRepository.bindable.
  destruct (WeatherRepository.get_cached_weather now
              (WeatherCache.location wc) tbl) as [[e|] tbl1] eqn:G;
    cbn [snd].
  - pose proof (get_cached_weather_hit _ _ _ _ _ G) as (-> & _ & _).
    destruct (int64 (WeatherCache.humidity wc)); cbn [negb andb].
    + destruct (WeatherCache.has_null wc); cbn [negb].
      * left. eexists. split; [reflexivity|]. auto.
      * right. left. exists e. auto.
    + left. eexists. split; [reflexivity|]. auto.
  - destruct (int64 (WeatherCache.humidity wc)); cbn [negb andb].
    + destruct (WeatherCache.id wc) as [i|] eqn:I.
      * destruct (int64 i); cbn [negb];
          [|left; eexists; split; [reflexivity|split; auto; right;
                                                discriminate]].
        destruct (WeatherCache.has_null wc); cbn [negb orb].
        -- left. eexists. split; [reflexivity|]. auto.
        -- destruct (WeatherRepository.key_taken wc tbl1) eqn:K.
           ++ left. eexists. split; [reflexivity|].
              split; auto. right. discriminate.
           ++ right. right. exists tbl1. auto.
      * cbn [negb]. destruct (WeatherCache.has_null wc); cbn [negb orb].
        -- left. eexists. split; [reflexivity|]. auto.
        -- assert (WeatherRepository.key_taken wc tbl1 = false) as K
             by (unfold WeatherRepository.key_taken; now rewrite I).
           rewrite K. right. right. exists tbl1. auto.
    + left. eexists. split; [reflexivity|]. auto.
Qed.

(** An object without key whose values the commit accepts is written. *)
Lemma store_weather_cache_accepts (now : datetime) (wc : WeatherCache.t)
    (tbl : list WeatherCache.t) :
  storable wc = true -> WeatherCache.id wc = None ->
  exists row tbl',
    WeatherRepository.store_weather_cache now wc tbl = (Ok row, tbl').
Proof.
  intros S I.
  destruct (store_weather_cache_cases now wc tbl)
    as [(err & _ & _ & [F|F])|[(e & _ & _ & E)|(tbl1 & _ & _ & _ & E)]];
    try congruence; eauto.
Qed.

(** Values the commit refuses are not written: the table is as the read
    left it. *)
Lemma store_weather_cache_refuses (now : datetime) (wc : WeatherCache.t)
    (tbl : list WeatherCache.t) :
  storable wc = false ->
  exists err,
    WeatherRepository.store_weather_cache now wc tbl
    = (Raise err,
       snd (WeatherRepository.get_cached_weather now
              (WeatherCache.location wc) tbl))
    /\ (err = OverflowError \/ err = IntegrityError).
Proof.
  intro S.
  destruct (store_weather_cache_cases now wc tbl)
    as [(err & E & K & _)|[(e & _ & F & _)|(tbl1 & _ & F & _)]];
    try congruence; eauto.
Qed.

Lemma get_cached_weather_one_per_location (now : datetime) (loc : string)
    (tbl : list WeatherCache.t) :
  one_per_location tbl ->
  one_per_location (snd (WeatherRepository.get_cached_weather now loc tbl)).
Proof.
  intro ND. unfold WeatherRepository.get_cached_weather.
  destruct (WeatherRepository.select_first loc tbl) as [c|]; auto.
  destruct (WeatherCache.is_expired now c); auto.
  now apply session_delete_one_per_location.
Qed.

Lemma get_cached_weather_pk_unique (now : datetime) (loc : string)
    (tbl : list WeatherCache.t) :
  pk_unique tbl ->
  pk_unique (snd (WeatherRepository.get_cached_weather now loc tbl)).
Proof.
  intro PK. unfold WeatherRepository.get_cached_weather.
  destruct (WeatherRepository.select_first loc tbl) as [c|]; auto.
  destruct (WeatherCache.is_expired now c); auto.
  now apply session_delete_pk_unique.
Qed.

Lemma get_cached_weather_subset (now : datetime) (loc : string)
    (tbl : list WeatherCache.t) (x : WeatherCache.t) :
  In x (snd (WeatherRepository.get_cached_weather now loc tbl)) -> In x tbl.
Proof.
  unfold WeatherRepository.get_cached_weather.
  destruct (WeatherRepository.select_first loc tbl) as [c|]; auto.
  destruct (WeatherCache.is_expired now c); auto. cbn [snd].
  unfold WeatherRepository.session_delete. intro H.
  now apply filter_In in H.
Qed.

Lemma store_weather_cache_one_per_location (now : datetime)
    (wc : WeatherCache.t) (tbl : list WeatherCache.t) :
  one_per_location tbl ->
  one_per_location (snd (WeatherRepository.store_weather_cache now wc tbl)).
Proof.
  intro ND.
  destruct (store_weather_cache_cases now wc tbl)
    as [(err & E & _)|[(e & G & _ & E)|(tbl1 & G & _ & _ & E)]];
    rewrite E; cbn [snd].
  - now apply get_cached_weather_one_per_location.
  - unfold one_per_location. now rewrite map_overwrite_locations.
  - destruct (get_cached_weather_miss _ _ _ _ ND G) as [ND1 Gone].
    apply one_per_location_app; auto.
Qed.

(** After an accepted write, the entry found for the written location is
    the row the write returns; it carries the written weather fields as
    the store keeps them. *)
Lemma store_weather_cache_lookup (now : datetime) (wc row : WeatherCache.t)
    (tbl tbl' : list WeatherCache.t) :
  one_per_location tbl ->
  WeatherRepository.store_weather_cache now wc tbl = (Ok row, tbl') ->
  WeatherRepository.select_first (WeatherCache.location wc) tbl' = Some row
  /\ WeatherCache.location row = WeatherCache.location wc
  /\ WeatherCache.temperature row = stored_real (WeatherCache.temperature wc)
  /\ WeatherCache.condition row = WeatherCache.condition wc
  /\ WeatherCache.humidity row = WeatherCache.humidity wc
  /\ WeatherCache.wind_speed row = stored_real (WeatherCache.wind_speed wc)
  /\ WeatherCache.updated_at row = WeatherCache.updated_at wc
  /\ (WeatherCache.cached_at row = now
      \/ WeatherCache.cached_at row = WeatherCache.cached_at wc).
Proof.
  intros ND Call.
  pose proof (store_weather_cache_one_per_location now wc tbl ND) as ND'.
  rewrite Call in ND'. cbn [snd] in ND'.
  destruct (store_weather_cache_cases now wc tbl)
    as [(err & E & _)|[(e & G & _ & E)|(tbl1 & G & _ & _ & E)]];
    rewrite E in Call; inversion Call; subst row tbl'; clear Call.
  - pose proof (get_cached_weather_hit _ _ _ _ _ G) as (_ & S & _).
    apply select_first_Some in S as [Hin El].
    assert (WeatherCache.location
              (WeatherCache.stored (WeatherRepository.overwrite now wc e))
            = WeatherCache.location wc) as L by exact El.
    rewrite <- L at 1.
    rewrite select_first_unique; auto.
    + repeat split; auto.
    + apply in_map_iff. exists e. now rewrite same_id_refl.
  - assert (WeatherCache.location
              (WeatherCache.stored (WeatherRepository.with_key wc tbl1))
            = WeatherCache.location wc) as L by reflexivity.
    rewrite <- L at 1.
    rewrite select_first_unique; auto.
    + repeat split; auto.
    + apply in_or_app. right. simpl. auto.
Qed.

(** ** The sweep: [cleanup_expired_cache] *)

Lemma filter_all {A : Type} (l : list A) : filter (fun _ => true) l = l.
Proof. induction l; simpl; congruence. Qed.

Lemma filter_twice {A : Type} (p q : A -> bool) (l : list A) :
  filter p (filter q l) = filter (fun x => q x && p x) l.
Proof.
  induction l as [|a l IH]; simpl; auto.
  destruct (q a); simpl; [destruct (p a)|]; now rewrite IH.
Qed.

(** The loop removes the rows whose key is the key of an expired row it
    has visited, and counts the expired rows. *)
Lemma cleanup_loop_spec (now : datetime) (all tbl : list WeatherCache.t)
    (n : Z) :
  WeatherRepository.cleanup_loop now all tbl n
  = (n + Z.of_nat (List.length (filter (WeatherCache.is_expired now) all)),
     filter (fun r =>
               negb (existsb (fun a => WeatherCache.is_expired now a
                                       && same_id (WeatherCache.id r)
                                                  (WeatherCache.id a)) all))
            tbl).
Proof.
  revert tbl n. induction all as [|a rest IH]; intros tbl n.
  - simpl. now rewrite filter_all, Z.add_0_r.
  - cbn [WeatherRepository.cleanup_loop filter existsb].
    destruct (WeatherCache.is_expired now a) eqn:X.
    + rewrite IH. unfold WeatherRepository.session_delete.
      rewrite filter_twice. f_equal.
      * cbn [List.length]. lia.
      * apply filter_ext. intro r. cbn [andb].
        now rewrite negb_orb.
    + rewrite IH. reflexivity.
Qed.


Lemma filter_length_split {A : Type} (p : A -> bool) (l : list A) :
  (List.length (filter p l) + List.length (filter (fun x => negb (p x)) l)
   = List.length l)%nat.
Proof.
  induction l as [|a l IH]; simpl; auto.
  destruct (p a); simpl; lia.
Qed.

Lemma expired_visited (now : datetime) (tbl : list WeatherCache.t)
    (r : WeatherCache.t) :
  pk_unique tbl -> In r tbl ->
  existsb (fun a => WeatherCache.is_expired now a
                    && same_id (WeatherCache.id r) (WeatherCache.id a)) tbl
  = WeatherCache.is_expired now r.
Proof.
  intros PK Hin.
  destruct (WeatherCache.is_expired now r) eqn:X.
  - apply existsb_exists. exists r. now rewrite X, same_id_refl.
  - apply not_true_is_false. intro H.
    apply existsb_exists in H as (a & Ha & H).
    apply andb_true_iff in H as [Xa E]. apply same_id_eq in E.
    assert (r = a) by (eapply keyed_injective; eauto).
    subst. congruence.
Qed.

(** C8.  On a table with unique keys, [cleanup_expired_cache] deletes
    exactly the entries whose age [now - cached_at] exceeds 1800 seconds
    and returns how many it deleted; the other entries stay as they are,
    and [get_cached_weather] still returns each of them afterwards. *)
Theorem cleanup_expired_cache_spec (now : datetime)
    (tbl : list WeatherCache.t) :
  pk_unique tbl ->
  WeatherRepository.cleanup_expired_cache now tbl
  = (Z.of_nat (List.length (filter (WeatherCache.is_expired now) tbl)),
     filter (fun r => negb (WeatherCache.is_expired now r)) tbl)
  /\ fst (WeatherRepository.cleanup_expired_cache now tbl)
     = Z.of_nat (List.length tbl)
       - Z.of_nat (List.length
                     (snd (WeatherRepository.cleanup_expired_cache now tbl)))
  /\ (forall r,
        In r (snd (WeatherRepository.cleanup_expired_cache now tbl))
        <-> In r tbl /\ now - WeatherCache.cached_at r <= 1800 * 1000000)
  /\ (one_per_location tbl ->
      forall r, In r tbl ->
        now - WeatherCache.cached_at r <= 1800 * 1000000 ->
        WeatherRepository.get_cached_weather now (WeatherCache.location r)
          (snd (WeatherRepository.cleanup_expired_cache now tbl))
        = (Some r, snd (WeatherRepository.cleanup_expired_cache now tbl))).
Proof.
  intro PK.
  assert (E : WeatherRepository.cleanup_expired_cache now tbl
              = (Z.of_nat (List.length
                             (filter (WeatherCache.is_expired now) tbl)),
                 filter (fun r => negb (WeatherCache.is_expired now r)) tbl)).
  { unfold WeatherRepository.cleanup_expired_cache.
    rewrite cleanup_loop_spec. f_equal.
    apply filter_ext_in. intros r Hin.
    now rewrite expired_visited. }
  rewrite E. cbn [fst snd].
  assert (Kept : forall r,
             In r (filter (fun r => negb (WeatherCache.is_expired now r)) tbl)
             <-> In r tbl /\ now - WeatherCache.cached_at r <= 1800 * 1000000).
  { intro r. rewrite filter_In, negb_true_iff.
    now rewrite (is_expired_false now r). }
  split; [reflexivity|split; [|split; [exact Kept|]]].
  - pose proof (filter_length_split (WeatherCache.is_expired now) tbl). lia.
  - intros ND r Hin Age.
    unfold WeatherRepository.get_cached_weather.
    rewrite select_first_unique.
    + apply (is_expired_false now r) in Age. now rewrite Age.
    + now apply keyed_filter.
    + now apply Kept.
Qed.

Lemma cleanup_expired_cache_spec_witness :
  pk_unique sample_cache
  /\ WeatherRepository.cleanup_expired_cache (120 * minute) sample_cache
     = (1, [paris_row]).
Proof.
  split; [exact sample_cache_pk_unique|].
  exact (proj1 (cleanup_expired_cache_spec (120 * minute) sample_cache
                  sample_cache_pk_unique)).
Defined.

(** ** At most one entry per location *)

Lemma key_taken_false (wc : WeatherCache.t) (tbl : list WeatherCache.t) :
  WeatherRepository.key_taken wc tbl = false ->
  ~ In (WeatherCache.id (WeatherRepository.with_key wc tbl))
       (map WeatherCache.id tbl).
Proof.
  unfold WeatherRepository.key_taken, WeatherRepository.with_key.
  cbn [WeatherCache.id].
  destruct (WeatherCache.id wc) as [i|]; [|intros _; apply next_id_fresh].
  intros K Hin. apply in_map_iff in Hin as (r & E & Hr).
  pose proof (existsb_exists
                (fun r => same_id (WeatherCache.id r) (Some i)) tbl) as [_ X].
  rewrite X in K; [discriminate|].
  exists r. split; auto. now apply same_id_eq.
Qed.



(** ** Field coercions and the response model *)

Lemma zrange_In (lo : Z) (n : nat) (k : Z) :
  In k (zrange lo n) <-> lo <= k < lo + Z.of_nat n.
Proof.
  unfold zrange. rewrite in_map_iff. split.
  - intros (i & <- & Hi). apply in_seq in Hi. lia.
  - intro H. exists (Z.to_nat (k - lo)). split; [lia|].
    apply in_seq. lia.
Qed.

(** A property checked on every integer of a range holds on the range. *)
Lemma zrange_forallb (p : Z -> bool) (lo : Z) (n : nat) :
  forallb p (zrange lo n) = true ->
  forall k, lo <= k < lo + Z.of_nat n -> p k = true.
Proof.
  intros H k Hk. rewrite forallb_forall in H. apply H. now apply zrange_In.
Qed.

Lemma as_percent_range (n : pynum) (z : Z) :
  as_percent n = Some z -> 0 <= z <= 100.
Proof.
  destruct n as [i|f]; unfold as_percent.
  - destruct ((0 <=? i) && (i <=? 100)) eqn:E; [|discriminate].
    intro H; inversion H; subst. lia.
  - intro H. apply find_some in H as [Hin _].
    apply zrange_In in Hin. lia.
Qed.

Lemma as_nonneg_float_spec (n : pynum) (f : float) :
  as_nonneg_float n = Some f ->
  as_float n = Some f /\ PrimFloat.leb 0%float f = true.
Proof.
  unfold as_nonneg_float. destruct (as_float n) as [g|]; [|discriminate].
  destruct (PrimFloat.leb 0%float g) eqn:E; [|discriminate].
  intro H; inversion H; subst. auto.
Qed.

Lemma create_ok (location : string) (temperature : pynum)
    (condition : string) (humidity wind_speed : pynum) (updated_at : datetime)
    (r : WeatherResponse.t) :
  WeatherResponse.create location temperature condition humidity wind_speed
    updated_at = Ok r ->
  WeatherResponse.location r = location
  /\ as_float temperature = Some (WeatherResponse.temperature r)
  /\ WeatherResponse.condition r = condition
  /\ as_percent humidity = Some (WeatherResponse.humidity r)
  /\ as_nonneg_float wind_speed = Some (WeatherResponse.wind_speed r)
  /\ WeatherResponse.updated_at r = updated_at.
Proof.
  unfold WeatherResponse.create.
  destruct (as_float temperature) as [t|]; [|discriminate].
  destruct (as_percent humidity) as [h|]; [|discriminate].
  destruct (as_nonneg_float wind_speed) as [w|]; [|discriminate].
  intro H; inversion H; subst. simpl. repeat split; reflexivity.
Qed.

Lemma create_in_range (location : string) (temperature : pynum)
    (condition : string) (humidity wind_speed : pynum) (updated_at : datetime)
    (r : WeatherResponse.t) :
  WeatherResponse.create location temperature condition humidity wind_speed
    updated_at = Ok r ->
  response_in_range r = true.
Proof.
  intro H. apply create_ok in H as (_ & _ & _ & Hh & Hw & _).
  apply as_percent_range in Hh. apply as_nonneg_float_spec in Hw as [_ Hw].
  unfold response_in_range. rewrite Hw.
  replace (0 <=? WeatherResponse.humidity r) with true
    by (symmetry; apply Z.leb_le; lia).
  replace (WeatherResponse.humidity r <=? 100) with true
    by (symmetry; apply Z.leb_le; lia).
  reflexivity.
Qed.

(** A row within the column bounds is returned as it is by a cache hit. *)
Lemma create_of_row (c : WeatherCache.t) :
  WeatherCache.in_range c = true ->
  WeatherResponse.create
    (WeatherCache.location c) (PFloat (WeatherCache.temperature c))
    (WeatherCache.condition c) (PInt (WeatherCache.humidity c))
    (PFloat (WeatherCache.wind_speed c)) (WeatherCache.updated_at c)
  = Ok (response_of_row c).
Proof.
  unfold WeatherCache.in_range, WeatherResponse.create, as_nonneg_float.
  intro H. apply andb_true_iff in H as [H Hw]. simpl.
  now rewrite H, Hw.
Qed.

(** ** The mock generator *)

Lemma mock_temperature_cases :
  forallb (fun k => match float_of_int (15 + k) with
                    | Some f => float_in 15 40 f
                    | None => false
                    end) (zrange 0 25) = true.
Proof. vm_compute. reflexivity. Qed.

Lemma mock_wind_speed_cases :
  forallb (fun k => match float_of_int (5 + k) with
                    | Some f => float_in 5 25 f
                    | None => false
                    end) (zrange 0 20) = true.
Proof. vm_compute. reflexivity. Qed.

(** The generator never raises; its four weather fields are functions of
    the index alone. *)
Lemma generate_mock_weather_ok (hash : string -> Z) (now : datetime)
    (location : string) :
  exists t w,
    float_of_int (15 + mock_index hash location mod 25) = Some t
    /\ float_of_int (5 + mock_index hash location mod 20) = Some w
    /\ float_in 15 40 t = true
    /\ float_in 5 25 w = true
    /\ MockWeatherResponse.generate_mock_weather hash now location
       = Ok (WeatherResponse.mk location t
               (nth (Z.to_nat (mock_index hash location mod 4))
                    MockWeatherResponse.conditions EmptyString)
               (40 + mock_index hash location mod 50) w now).
Proof.
  unfold MockWeatherResponse.generate_mock_weather.
  fold (mock_index hash location).
  set (h := mock_index hash location).
  pose proof (Z.mod_pos_bound h 25 eq_refl) as B25.
  pose proof (Z.mod_pos_bound h 50 eq_refl) as B50.
  pose proof (Z.mod_pos_bound h 20 eq_refl) as B20.
  pose proof (zrange_forallb _ 0 25 mock_temperature_cases (h mod 25) B25) as Ht.
  pose proof (zrange_forallb _ 0 20 mock_wind_speed_cases (h mod 20) B20) as Hw.
  cbv beta in Ht, Hw.
  destruct (float_of_int (15 + h mod 25)) as [t|] eqn:Et; [|discriminate].
  destruct (float_of_int (5 + h mod 20)) as [w|] eqn:Ew; [|discriminate].
  exists t, w. repeat split; auto.
  unfold WeatherResponse.create, as_nonneg_float, as_float, as_percent.
  rewrite Et, Ew.
  replace ((0 <=? 40 + h mod 50) && (40 + h mod 50 <=? 100)) with true
    by (symmetry; apply andb_true_iff; split; apply Z.leb_le; lia).
  unfold float_in in Hw. apply andb_true_iff in Hw as [Hw _].
  assert (PrimFloat.leb 0%float w = true) as ->; [|reflexivity].
  revert Hw. clear -Ew B20.
  pose proof (zrange_forallb
                (fun k => match float_of_int (5 + k) with
                          | Some f => PrimFloat.leb 0%float f
                          | None => false
                          end) 0 20 eq_refl (h mod 20) B20) as H.
  cbv beta in H. rewrite Ew in H. auto.
Qed.

(** ** The provider client: [_fetch_weather_from_api] *)

Lemma fetch_ok_inv (env : Env) (now : datetime) (location : string)
    (reqs : list string) (r : WeatherResponse.t) :
  fst (WeatherService._fetch_weather_from_api env now location reqs) = Ok r ->
  WeatherService.key_configured env = true
  /\ exists status_code b,
       http_get env location = Response status_code b
       /\ WeatherService.is_success status_code = true
       /\ WeatherService.parse_response now b = Ok r.
Proof.
  unfold WeatherService._fetch_weather_from_api.
  destruct (WeatherService.key_configured env); simpl; [|discriminate].
  intro H. split; auto.
  destruct (http_get env location) as [|msg|status_code b]; try discriminate.
  exists status_code, b.
  destruct (WeatherService.is_success status_code); auto.
  destruct (status_code =? 404); [discriminate|].
  destruct (status_code =? 401); discriminate.
Qed.

Lemma parse_response_ok_inv (now : datetime) (b : body)
    (r : WeatherResponse.t) :
  WeatherService.parse_response now b = Ok r ->
  exists p temp first rest description humidity wind_speed,
    b = Payload p
    /\ dict_get (WeatherAPIRequest.main p) "temp" = Some temp
    /\ WeatherAPIRequest.weather p = first :: rest
    /\ dict_get first "description" = Some (VStr description)
    /\ dict_get (WeatherAPIRequest.main p) "humidity" = Some humidity
    /\ WeatherAPIRequest.to_kmh
         (match dict_get (WeatherAPIRequest.wind p) "speed" with
          | Some speed => speed
          | None => PInt 0
          end) = Ok wind_speed
    /\ WeatherResponse.create (WeatherAPIRequest.name p) temp
         (title description) humidity (PFloat wind_speed) now = Ok r.
Proof.
  unfold WeatherService.parse_response.
  destruct b as [| | |p]; try discriminate.
  destruct (dict_get (WeatherAPIRequest.main p) "temp") as [temp|] eqn:Et;
    [|discriminate].
  destruct (WeatherAPIRequest.weather p) as [|first rest] eqn:Ew;
    [discriminate|].
  destruct (dict_get first "description") as [[n|description]|] eqn:Ed;
    try discriminate.
  destruct (dict_get (WeatherAPIRequest.main p) "humidity") as [humidity|]
    eqn:Eh; [|discriminate].
  destruct (WeatherAPIRequest.to_kmh _) as [wind_speed|e] eqn:Ek;
    [|discriminate].
  destruct (WeatherResponse.create _ _ _ _ _ _) as [r'|e] eqn:Ec;
    [|discriminate].
  intro H; inversion H; subst.
  exists p, temp, first, rest, description, humidity, wind_speed.
  repeat split; auto.
Qed.

Lemma fetch_in_range (env : Env) (now : datetime) (location : string)
    (reqs : list string) (r : WeatherResponse.t) :
  fst (WeatherService._fetch_weather_from_api env now location reqs) = Ok r ->
  response_in_range r = true.
Proof.
  intro H. apply fetch_ok_inv in H as (_ & code & b & _ & _ & P).
  apply parse_response_ok_inv in P
    as (p & temp & first & rest & d & h & w & _ & _ & _ & _ & _ & _ & C).
  eapply create_in_range; eauto.
Qed.





(** ** Properties of rows that depend on the weather fields only *)

Section FieldInvariant.
Variable P : WeatherCache.t -> bool.
Hypothesis P_overwrite :
  forall now wc r, P (WeatherRepository.overwrite now wc r) = P wc.
Hypothesis P_with_key :
  forall wc tbl, P (WeatherRepository.with_key wc tbl) = P wc.
Hypothesis P_stored : forall r, P (WeatherCache.stored r) = P r.

Lemma get_cached_weather_Forall (now : datetime) (loc : string)
    (tbl : list WeatherCache.t) :
  Forall (fun r => P r = true) tbl ->
  Forall (fun r => P r = true)
    (snd (WeatherRepository.get_cached_weather now loc tbl)).
Proof.
  intro R. rewrite Forall_forall in *. intros x Hx.
  apply R. now apply get_cached_weather_subset in Hx.
Qed.

Lemma store_weather_cache_Forall (now : datetime) (wc : WeatherCache.t)
    (tbl : list WeatherCache.t) :
  Forall (fun r => P r = true) tbl -> P wc = true ->
  Forall (fun r => P r = true)
    (snd (WeatherRepository.store_weather_cache now wc tbl)).
Proof.
  intros R Rwc.
  pose proof (get_cached_weather_Forall now (WeatherCache.location wc) tbl R)
    as R1.
  destruct (store_weather_cache_cases now wc tbl)
    as [(err & E & _)|[(e & G & _ & E)|(tbl1 & G & _ & _ & E)]];
    rewrite E; cbn [snd]; auto.
  - rewrite Forall_forall in *. intros x Hx.
    apply in_map_iff in Hx as (y & <- & Hy).
    destruct (same_id (WeatherCache.id y) (WeatherCache.id e)); auto.
    now rewrite P_stored, P_overwrite.
  - rewrite G in R1. cbn [snd] in R1.
    apply Forall_app. split; auto.
    constructor; auto. now rewrite P_stored, P_with_key.
Qed.
End FieldInvariant.

Lemma get_cached_weather_rows_in_range (now : datetime) (loc : string)
    (tbl : list WeatherCache.t) :
  rows_in_range tbl ->
  rows_in_range (snd (WeatherRepository.get_cached_weather now loc tbl)).
Proof. apply get_cached_weather_Forall. Qed.

Lemma store_weather_cache_rows_in_range (now : datetime)
    (wc : WeatherCache.t) (tbl : list WeatherCache.t) :
  rows_in_range tbl -> WeatherCache.in_range wc = true ->
  rows_in_range (snd (WeatherRepository.store_weather_cache now wc tbl)).
Proof.
  apply store_weather_cache_Forall; try reflexivity.
  apply in_range_stored.
Qed.

(** ** The weather service: [get_weather_for_location] *)

Lemma strip_not_blank (s : string) :
  strip s <> EmptyString ->
  negb (truthy s) || negb (truthy (strip s)) = false.
Proof.
  intro H. destruct s as [|c s]; [now elim H|].
  destruct (strip (String c s)); [now elim H|]. reflexivity.
Qed.

Lemma get_weather_blank (env : Env) (now : datetime) (location : string)
    (w : World) :
  strip location = EmptyString ->
  WeatherService.get_weather_for_location env now location w
  = (Raise (HTTPException 400 "Location cannot be empty"), w).
Proof.
  intro H. unfold WeatherService.get_weather_for_location.
  rewrite H. simpl. now rewrite orb_true_r.
Qed.

(** The hit path: the row is returned, nothing else happens. *)
Lemma get_weather_hit (env : Env) (now : datetime) (location : string)
    (w : World) (c : WeatherCache.t) :
  strip location <> EmptyString ->
  WeatherRepository.get_cached_weather now (strip location) (cache w)
  = (Some c, cache w) ->
  WeatherCache.in_range c = true ->
  WeatherService.get_weather_for_location env now location w
  = (Ok (response_of_row c), w).
Proof.
  intros NB G R. unfold WeatherService.get_weather_for_location.
  rewrite (strip_not_blank location NB), G, (create_of_row c R).
  now destruct w.
Qed.

Lemma int64_percent (r : WeatherResponse.t) :
  response_in_range r = true -> int64 (WeatherResponse.humidity r) = true.
Proof.
  unfold response_in_range, int64. intro R.
  apply andb_true_iff in R as [R _].
  apply andb_true_iff in R as [R1 R2]. apply Z.leb_le in R1, R2.
  apply andb_true_iff. split; [apply Z.leb_le|apply Z.ltb_lt]; lia.
Qed.

(** The object the service writes for a response within the field bounds
    is refused by the store exactly when its temperature is NaN. *)
Lemma storable_cache_entry (r : WeatherResponse.t) (now : datetime) :
  response_in_range r = true ->
  storable (cache_entry_of r now)
  = negb (PrimFloat.is_nan (WeatherResponse.temperature r)).
Proof.
  intro R. unfold storable, WeatherCache.has_null.
  cbn [cache_entry_of WeatherCache.humidity WeatherCache.temperature
       WeatherCache.wind_speed].
  rewrite (int64_percent r R).
  unfold response_in_range in R. apply andb_true_iff in R as [_ Rw].
  now rewrite (leb_not_nan _ _ Rw), orb_false_r.
Qed.

(** A NaN in an object without key whose humidity can be bound: the
    NOT NULL column refuses the write. *)
Lemma store_weather_cache_null (now : datetime) (wc : WeatherCache.t)
    (tbl : list WeatherCache.t) :
  int64 (WeatherCache.humidity wc) = true -> WeatherCache.id wc = None ->
  WeatherCache.has_null wc = true ->
  WeatherRepository.store_weather_cache now wc tbl
  = (Raise IntegrityError,
     snd (WeatherRepository.get_cached_weather now
            (WeatherCache.location wc) tbl)).
Proof.
  unfold WeatherRepository.store_weather_cache, WeatherRepository.bindable.
  intros -> -> ->.
  now destruct (WeatherRepository.get_cached_weather now
                  (WeatherCache.location wc) tbl) as [[e|] tbl1].
Qed.

(** The miss path: the provider's snapshot, or the mock's when the fetch
    raised, is written to the cache and returned; when the store refuses
    it, which it does for a NaN temperature alone, its error is raised. *)
Lemma get_weather_miss (env : Env) (now : datetime) (location : string)
    (w : World) (tbl1 : list WeatherCache.t) :
  strip location <> EmptyString ->
  WeatherRepository.get_cached_weather now (strip location) (cache w)
  = (None, tbl1) ->
  exists r,
    (fst (WeatherService._fetch_weather_from_api env now (strip location)
            (requests w)) = Ok r
     \/ (exists e,
           fst (WeatherService._fetch_weather_from_api env now
                  (strip location) (requests w)) = Raise e)
        /\ MockWeatherResponse.generate_mock_weather (hash env) now
             (strip location) = Ok r
        /\ PrimFloat.is_nan (WeatherResponse.temperature r) = false)
    /\ response_in_range r = true
    /\ WeatherService.get_weather_for_location env now location w
       = (if PrimFloat.is_nan (WeatherResponse.temperature r)
          then Raise IntegrityError else Ok r,
          mkWorld
            (snd (WeatherRepository.store_weather_cache now
                    (cache_entry_of r now) tbl1))
            (snd (WeatherService._fetch_weather_from_api env now
                    (strip location) (requests w))))
    /\ (PrimFloat.is_nan (WeatherResponse.temperature r) = true ->
        snd (WeatherRepository.store_weather_cache now
               (cache_entry_of r now) tbl1)
        = snd (WeatherRepository.get_cached_weather now
                 (WeatherResponse.location r) tbl1))
    /\ (PrimFloat.is_nan (WeatherResponse.temperature r) = false ->
        exists row,
          fst (WeatherRepository.store_weather_cache now
                 (cache_entry_of r now) tbl1) = Ok row).
Proof.
  intros NB G.
  assert (Written : forall r reqs,
             response_in_range r = true ->
             (let (stored, tbl2) :=
                WeatherRepository.store_weather_cache now
                  (cache_entry_of r now) tbl1 in
              match stored with
              | Raise e => (Raise e, mkWorld tbl2 reqs)
              | Ok _ => (Ok r, mkWorld tbl2 reqs)
              end)
             = (if PrimFloat.is_nan (WeatherResponse.temperature r)
                then Raise IntegrityError else Ok r,
                mkWorld
                  (snd (WeatherRepository.store_weather_cache now
                          (cache_entry_of r now) tbl1)) reqs)
             /\ (PrimFloat.is_nan (WeatherResponse.temperature r) = true ->
                 snd (WeatherRepository.store_weather_cache now
                        (cache_entry_of r now) tbl1)
                 = snd (WeatherRepository.get_cached_weather now
                          (WeatherResponse.location r) tbl1))
             /\ (PrimFloat.is_nan (WeatherResponse.temperature r) = false ->
                 exists row,
                   fst (WeatherRepository.store_weather_cache now
                          (cache_entry_of r now) tbl1) = Ok row)).
  { intros r reqs R.
    pose proof (storable_cache_entry r now R) as S.
    destruct (PrimFloat.is_nan (WeatherResponse.temperature r)) eqn:N;
      cbn [negb] in S.
    - assert (E : WeatherRepository.store_weather_cache now
                    (cache_entry_of r now) tbl1
                  = (Raise IntegrityError,
                     snd (WeatherRepository.get_cached_weather now
                            (WeatherResponse.location r) tbl1))).
      { apply (store_weather_cache_null now (cache_entry_of r now) tbl1);
          auto.
        - exact (int64_percent r R).
        - unfold WeatherCache.has_null.
          cbn [cache_entry_of WeatherCache.temperature]. now rewrite N. }
      rewrite E. cbn [snd]. split; [reflexivity|split; [auto|discriminate]].
    - destruct (store_weather_cache_accepts now (cache_entry_of r now) tbl1
                  S eq_refl) as (row & tbl2 & E).
      rewrite E. cbn [fst snd].
      split; [reflexivity|split; [discriminate|eauto]]. }
  unfold WeatherService.get_weather_for_location.
  rewrite (strip_not_blank location NB), G.
  destruct (WeatherService._fetch_weather_from_api env now (strip location)
              (requests w)) as [[r|e] reqs] eqn:F.
  - exists r. cbn [fst snd].
    assert (R : response_in_range r = true).
    { apply (fetch_in_range env now (strip location) (requests w)).
      now rewrite F. }
    split; [now left|split; [exact R|]].
    exact (Written r reqs R).
  - destruct (generate_mock_weather_ok (hash env) now (strip location))
      as (t & ws & _ & _ & Rt & _ & M).
    rewrite M.
    set (r := WeatherResponse.mk _ _ _ _ _ _) in *.
    assert (R : response_in_range r = true).
    { unfold MockWeatherResponse.generate_mock_weather in M.
      eapply create_in_range; eauto. }
    exists r. cbn [fst snd]. split; [right; split; [eauto|split; auto]|].
    + unfold float_in in Rt. apply andb_true_iff in Rt as [Rt _].
      exact (leb_not_nan _ _ Rt).
    + split; [exact R|]. exact (Written r reqs R).
Qed.

(** What the fetch does on each kind of provider failure. *)
Lemma fetch_failures (env : Env) (now : datetime) (location : string)
    (reqs : list string) :
  (WeatherService.key_configured env = false ->
   WeatherService._fetch_weather_from_api env now location reqs
   = (Raise (ValueError "Weather API key not configured"), reqs))
  /\ (WeatherService.key_configured env = true ->
      (http_get env location = Timeout ->
       fst (WeatherService._fetch_weather_from_api env now location reqs)
       = Raise (HTTPException 504 "Weather service timeout"))
      /\ (forall b, http_get env location = Response 404 b ->
          fst (WeatherService._fetch_weather_from_api env now location reqs)
          = Raise (HTTPException 404
                     ("Location '" ++ location ++ "' not found")))
      /\ (forall b, http_get env location = Response 401 b ->
          fst (WeatherService._fetch_weather_from_api env now location reqs)
          = Raise (HTTPException 503
                     "Weather service authentication failed"))
      /\ (forall msg, http_get env location = Response 200 (InvalidShape msg) ->
          fst (WeatherService._fetch_weather_from_api env now location reqs)
          = Raise (HTTPException 503
                     ("Invalid weather API response: " ++ msg)))
      /\ (http_get env location = Response 200 NotAnObject ->
          fst (WeatherService._fetch_weather_from_api env now location reqs)
          = Raise TypeError)).
Proof.
  unfold WeatherService._fetch_weather_from_api. split.
  - now intros ->.
  - intros ->. cbn [negb fst]. repeat split.
    + now intros ->.
    + now intros b ->.
    + now intros b ->.
    + now intros msg ->.
    + now intros ->.
Qed.

Lemma rows_in_range_select (loc : string) (tbl : list WeatherCache.t)
    (c : WeatherCache.t) :
  rows_in_range tbl -> WeatherRepository.select_first loc tbl = Some c ->
  WeatherCache.in_range c = true.
Proof.
  intros R S. apply select_first_Some in S as [Hin _].
  unfold rows_in_range in R. rewrite Forall_forall in R. now apply R.
Qed.

Lemma fetch_requests (env : Env) (now : datetime) (location : string)
    (reqs : list string) :
  snd (WeatherService._fetch_weather_from_api env now location reqs)
  = if WeatherService.key_configured env then location :: reqs else reqs.
Proof.
  unfold WeatherService._fetch_weather_from_api.
  now destruct (WeatherService.key_configured env).
Qed.

(** C3.  For a location that is not blank, on a cache whose rows respect
    the column bounds, [get_weather_for_location] returns a snapshot in
    every case but one.  On a cache miss, whenever the provider fetch
    raises (whatever the exception), the returned snapshot is the mock
    generator's for the trimmed location; and when no credential is
    configured no request is sent, the temperature lies in [15, 40) and the
    wind speed in [5, 25).  Without a credential the two ranges also hold on
    a hit, as long as the rows of the cache lie in them (an empty cache, or
    one filled without a credential), and the rows then stay in them.  The
    one case: on a miss where the provider fetch succeeds with a NaN
    temperature, the store refuses the row and the call raises its
    [IntegrityError], after the request was sent and with no row added to
    the cache. *)
Theorem get_weather_absorbs_provider_errors (env : Env) (now : datetime)
    (location : string) (w : World) :
  strip location <> EmptyString ->
  rows_in_range (cache w) ->
  ((exists r w',
      WeatherService.get_weather_for_location env now location w = (Ok r, w')
      /\ (fst (WeatherRepository.get_cached_weather now (strip location)
                 (cache w)) = None ->
          (forall e,
              fst (WeatherService._fetch_weather_from_api env now
                     (strip location) (requests w)) = Raise e ->
              MockWeatherResponse.generate_mock_weather (hash env) now
                (strip location) = Ok r)
          /\ (WeatherService.key_configured env = false ->
              MockWeatherResponse.generate_mock_weather (hash env) now
                (strip location) = Ok r
              /\ float_in 15 40 (WeatherResponse.temperature r) = true
              /\ float_in 5 25 (WeatherResponse.wind_speed r) = true
              /\ requests w' = requests w))
      /\ (WeatherService.key_configured env = false ->
          Forall (fun c => mock_like c = true) (cache w) ->
          float_in 15 40 (WeatherResponse.temperature r) = true
          /\ float_in 5 25 (WeatherResponse.wind_speed r) = true
          /\ Forall (fun c => mock_like c = true) (cache w')))
   \/ (exists r w',
         fst (WeatherRepository.get_cached_weather now (strip location)
                (cache w)) = None
         /\ fst (WeatherService._fetch_weather_from_api env now
                   (strip location) (requests w)) = Ok r
         /\ PrimFloat.is_nan (WeatherResponse.temperature r) = true
         /\ WeatherService.get_weather_for_location env now location w
            = (Raise IntegrityError, w')
         /\ requests w' = strip location :: requests w
         /\ (forall x, In x (cache w') -> In x (cache w))))
  /\ (is_ok (fst (WeatherService._fetch_weather_from_api env now
                    (strip location) (requests w))) = false ->
      exists r w',
        WeatherService.get_weather_for_location env now location w
        = (Ok r, w')).
Proof.
  intros NB R.
  assert (Main : (exists r w',
      WeatherService.get_weather_for_location env now location w = (Ok r, w')
      /\ (fst (WeatherRepository.get_cached_weather now (strip location)
                 (cache w)) = None ->
          (forall e,
              fst (WeatherService._fetch_weather_from_api env now
                     (strip location) (requests w)) = Raise e ->
              MockWeatherResponse.generate_mock_weather (hash env) now
                (strip location) = Ok r)
          /\ (WeatherService.key_configured env = false ->
              MockWeatherResponse.generate_mock_weather (hash env) now
                (strip location) = Ok r
              /\ float_in 15 40 (WeatherResponse.temperature r) = true
              /\ float_in 5 25 (WeatherResponse.wind_speed r) = true
              /\ requests w' = requests w))
      /\ (WeatherService.key_configured env = false ->
          Forall (fun c => mock_like c = true) (cache w) ->
          float_in 15 40 (WeatherResponse.temperature r) = true
          /\ float_in 5 25 (WeatherResponse.wind_speed r) = true
          /\ Forall (fun c => mock_like c = true) (cache w')))
   \/ (exists r w',
         fst (WeatherRepository.get_cached_weather now (strip location)
                (cache w)) = None
         /\ fst (WeatherService._fetch_weather_from_api env now
                   (strip location) (requests w)) = Ok r
         /\ PrimFloat.is_nan (WeatherResponse.temperature r) = true
         /\ WeatherService.get_weather_for_location env now location w
            = (Raise IntegrityError, w')
         /\ requests w' = strip location :: requests w
         /\ (forall x, In x (cache w') -> In x (cache w)))).
  { destruct (WeatherRepository.get_cached_weather now (strip location)
                (cache w)) as [[c|] tbl1] eqn:G.
    - left.
      pose proof (get_cached_weather_hit _ _ _ _ _ G) as (-> & S & _).
      exists (response_of_row c), w. split; [|split; [discriminate|]].
      + apply get_weather_hit; auto.
        eapply rows_in_range_select; eauto.
      + intros _ M. apply select_first_Some in S as [Hin _].
        pose proof M as Mc. rewrite Forall_forall in Mc.
        specialize (Mc c Hin). unfold mock_like in Mc.
        apply andb_true_iff in Mc as [Mt Mw]. cbn. auto.
    - destruct (get_weather_miss env now location w tbl1 NB G)
        as (r & Src & _ & E & Refused & _).
      destruct (PrimFloat.is_nan (WeatherResponse.temperature r)) eqn:N.
      + right. destruct Src as [F|(_ & _ & N')]; [|congruence].
        exists r. eexists.
        split; [reflexivity|split; [exact F|split; [exact N|]]].
        split; [exact E|]. cbn [requests cache].
        pose proof (fetch_ok_inv _ _ _ _ _ F) as (Key & _).
        rewrite fetch_requests, Key. split; [reflexivity|].
        rewrite (Refused eq_refl). intros x Hx.
        apply get_cached_weather_subset in Hx.
        apply (get_cached_weather_subset now (strip location) (cache w)).
        now rewrite G.
      + left. exists r. eexists. split; [exact E|].
        assert (Fallback : forall e,
                   fst (WeatherService._fetch_weather_from_api env now
                          (strip location) (requests w)) = Raise e ->
                   MockWeatherResponse.generate_mock_weather (hash env) now
                     (strip location) = Ok r).
        { intros e Fe. destruct Src as [Fr|(_ & M & _)];
            [congruence|exact M]. }
        assert (NoKeyCase : WeatherService.key_configured env = false ->
                   MockWeatherResponse.generate_mock_weather (hash env) now
                     (strip location) = Ok r
                   /\ float_in 15 40 (WeatherResponse.temperature r) = true
                   /\ float_in 5 25 (WeatherResponse.wind_speed r) = true
                   /\ snd (WeatherService._fetch_weather_from_api env now
                             (strip location) (requests w)) = requests w).
        { intro NoKey.
          destruct (fetch_failures env now (strip location) (requests w))
            as [F _]. specialize (F NoKey).
          assert (M : MockWeatherResponse.generate_mock_weather (hash env)
                        now (strip location) = Ok r).
          { eapply Fallback. rewrite F. reflexivity. }
          destruct (generate_mock_weather_ok (hash env) now (strip location))
            as (t & ws & _ & _ & Rt & Rw & M').
          rewrite M' in M. inversion M; subst r. cbn.
          rewrite F. auto. }
        split; [intros _; split; [exact Fallback|exact NoKeyCase]|].
        intros NoKey M. destruct (NoKeyCase NoKey) as (_ & Rt & Rw & _).
        split; [exact Rt|split; [exact Rw|]].
        cbn [cache].
        apply (store_weather_cache_Forall mock_like); try reflexivity.
        * apply mock_like_stored.
        * pose proof (get_cached_weather_Forall mock_like now
                        (strip location) (cache w) M) as M1.
          now rewrite G in M1.
        * unfold mock_like. cbn. now rewrite Rt, Rw. }
  split; [exact Main|].
  intro Fail.
  destruct Main as [(r & w' & E & _)|(r & w' & _ & F & _)]; eauto.
  rewrite F in Fail. discriminate.
Qed.

Lemma get_weather_absorbs_provider_errors_witness :
  strip "  Nowhere " <> EmptyString
  /\ rows_in_range (cache empty_world)
  /\ exists r w',
       WeatherService.get_weather_for_location keyless_env 7 "  Nowhere "
         empty_world = (Ok r, w')
       /\ float_in 15 40 (WeatherResponse.temperature r) = true
       /\ float_in 5 25 (WeatherResponse.wind_speed r) = true
       /\ requests w' = [].
Proof.
  assert (NB : strip "  Nowhere " <> EmptyString) by (vm_compute; discriminate).
  assert (R : rows_in_range (cache empty_world)) by constructor.
  split; [exact NB|split; [exact R|]].
  destruct (proj1 (get_weather_absorbs_provider_errors keyless_env 7
                     "  Nowhere " empty_world NB R))
    as [(r & w' & E & H & _)|(r & w' & _ & F & _)].
  - destruct (H eq_refl) as (_ & K).
    destruct (K eq_refl) as (_ & Ht & Hw & Hr).
    exists r, w'. auto.
  - vm_compute in F. discriminate F.
Defined.

(** That the call always returns a snapshot, as the specification has it,
    fails for a provider that answers with a NaN temperature: the fetch
    succeeds and the cache write raises. *)
Lemma get_weather_raises_on_nan_temperature :
  strip "tromso" <> EmptyString
  /\ rows_in_range (cache empty_world)
  /\ fst (WeatherService._fetch_weather_from_api nan_env 7 "tromso" [])
     = Ok (WeatherResponse.mk "Tromso" PrimFloat.nan "Mist" 50
             0x1.ccccccccccccdp+1%float 7)
  /\ WeatherService.get_weather_for_location nan_env 7 "tromso" empty_world
     = (Raise IntegrityError, mkWorld [] ["tromso"%string]).
Proof.
  split; [vm_compute; discriminate|].
  split; [constructor|].
  split; vm_compute; reflexivity.
Qed.

(** The rows of the table after a write come from the table before it, or
    carry the written location. *)
Lemma store_weather_cache_locations (now : datetime) (wc : WeatherCache.t)
    (tbl : list WeatherCache.t) (x : WeatherCache.t) :
  In x (snd (WeatherRepository.store_weather_cache now wc tbl)) ->
  (exists y, In y tbl /\ WeatherCache.location y = WeatherCache.location x)
  \/ WeatherCache.location x = WeatherCache.location wc.
Proof.
  destruct (store_weather_cache_cases now wc tbl)
    as [(err & E & _)|[(e & G & _ & E)|(tbl1 & G & _ & _ & E)]];
    rewrite E; cbn [snd]; intro H.
  - left. exists x. split; auto. now apply get_cached_weather_subset in H.
  - apply in_map_iff in H as (y & <- & Hy). left. exists y. split; auto.
    now destruct (same_id (WeatherCache.id y) (WeatherCache.id e)).
  - apply in_app_or in H as [H|[<-|[]]]; [|now right].
    left. exists x. split; auto.
    apply (get_cached_weather_subset now (WeatherCache.location wc) tbl).
    now rewrite G.
Qed.

Lemma create_of_row_inv (c : WeatherCache.t) (r : WeatherResponse.t) :
  WeatherResponse.create
    (WeatherCache.location c) (PFloat (WeatherCache.temperature c))
    (WeatherCache.condition c) (PInt (WeatherCache.humidity c))
    (PFloat (WeatherCache.wind_speed c)) (WeatherCache.updated_at c)
  = Ok r ->
  WeatherCache.in_range c = true /\ r = response_of_row c.
Proof.
  unfold WeatherResponse.create, as_nonneg_float, as_float, as_percent,
    WeatherCache.in_range, response_of_row.
  destruct ((0 <=? WeatherCache.humidity c)
            && (WeatherCache.humidity c <=? 100)); [|discriminate].
  destruct (PrimFloat.leb 0 (WeatherCache.wind_speed c)); [|discriminate].
  intro H; inversion H. auto.
Qed.

(** What a call that missed and returned a snapshot leaves in the cache:
    under the snapshot's location, one entry that holds the snapshot as
    the store keeps it, cached at [now]. *)
Lemma get_weather_miss_entry (env : Env) (now : datetime)
    (location : string) (w w' : World) (r : WeatherResponse.t) :
  one_per_location (cache w) ->
  fst (WeatherRepository.get_cached_weather now (strip location) (cache w))
  = None ->
  WeatherService.get_weather_for_location env now location w = (Ok r, w') ->
  strip location <> EmptyString
  /\ one_per_location (cache w')
  /\ PrimFloat.is_nan (WeatherResponse.temperature r) = false
  /\ response_in_range r = true
  /\ requests w'
     = snd (WeatherService._fetch_weather_from_api env now (strip location)
              (requests w))
  /\ (fst (WeatherService._fetch_weather_from_api env now (strip location)
             (requests w)) = Ok r
      \/ is_ok (fst (WeatherService._fetch_weather_from_api env now
                       (strip location) (requests w))) = false
         /\ MockWeatherResponse.generate_mock_weather (hash env) now
              (strip location) = Ok r)
  /\ (WeatherResponse.location r <> strip location ->
      forall x, In x (cache w') -> WeatherCache.location x <> strip location)
  /\ exists e,
       WeatherRepository.select_first (WeatherResponse.location r) (cache w')
       = Some e
       /\ WeatherCache.in_range e = true
       /\ response_of_row e = stored_response r
       /\ WeatherCache.cached_at e = now.
Proof.
  intros ND Miss Call.
  assert (NB : strip location <> EmptyString).
  { intro B. rewrite (get_weather_blank env now location w B) in Call.
    discriminate. }
  split; [exact NB|].
  destruct (WeatherRepository.get_cached_weather now (strip location)
              (cache w)) as [c tbl1] eqn:G.
  cbn [fst] in Miss. subst c.
  destruct (get_weather_miss env now location w tbl1 NB G)
    as (r0 & Src & R & E & _ & Accepted).
  rewrite E in Call.
  destruct (PrimFloat.is_nan (WeatherResponse.temperature r0)) eqn:N;
    [discriminate|].
  inversion Call; subst r0 w'. clear Call.
  cbn [cache requests].
  destruct (get_cached_weather_miss _ _ _ _ ND G) as [ND1 Gone].
  destruct (Accepted eq_refl) as [row Erow].
  destruct (WeatherRepository.store_weather_cache now (cache_entry_of r now)
              tbl1) as [res tbl2] eqn:St.
  cbn [fst snd] in *. subst res.
  pose proof (store_weather_cache_one_per_location now
                (cache_entry_of r now) tbl1 ND1) as ND2.
  rewrite St in ND2. cbn [snd] in ND2.
  destruct (store_weather_cache_lookup now (cache_entry_of r now) row tbl1
              tbl2 ND1 St) as (S & El & Et & Ec & Eh & Ew & Eu & Ea).
  cbn [cache_entry_of WeatherCache.location WeatherCache.temperature
       WeatherCache.condition WeatherCache.humidity WeatherCache.wind_speed
       WeatherCache.updated_at WeatherCache.cached_at] in *.
  split; [exact ND2|split; [exact N|split; [exact R|split; [reflexivity|]]]].
  split.
  { destruct Src as [F|((e & F) & M & _)]; [now left|right].
    rewrite F. auto. }
  split.
  { intros Other x Hx.
    pose proof (store_weather_cache_locations now (cache_entry_of r now)
                  tbl1 x) as L.
    rewrite St in L. cbn [snd] in L.
    destruct (L Hx) as [(y & Hy & Ey)|Ex].
    - rewrite <- Ey. now apply Gone.
    - rewrite Ex. exact Other. }
  exists row. split; [exact S|split; [|split]].
  - unfold WeatherCache.in_range. unfold response_in_range in R.
    now rewrite Eh, Ew, stored_real_leb.
  - unfold response_of_row, stored_response.
    now rewrite El, Et, Ec, Eh, Ew, Eu.
  - now destruct Ea.
Qed.
(** C4.  Suppose a first call for a location missed the cache and returned
    a snapshot, which it then stored.  When the provider fetch did not
    succeed the snapshot is the mock generator's, stored under the trimmed
    requested location.  Whenever the snapshot is stored under the trimmed
    requested location, a second call for the same location made at most
    thirty minutes after the first, whatever the provider would answer
    then, is a pure cache hit: it returns the stored snapshot, that is the
    same condition and humidity and the same temperature and wind speed as
    numbers (a negative zero comes back as zero), sends no request to the
    provider and leaves the cache table, cached-at included, as it was. *)
Theorem get_weather_second_call_is_cache_hit (env1 env2 : Env)
    (now1 now2 : datetime) (location : string) (w0 w1 : World)
    (r1 : WeatherResponse.t) :
  one_per_location (cache w0) ->
  fst (WeatherRepository.get_cached_weather now1 (strip location) (cache w0))
  = None ->
  WeatherService.get_weather_for_location env1 now1 location w0
  = (Ok r1, w1) ->
  (is_ok (fst (WeatherService._fetch_weather_from_api env1 now1
                 (strip location) (requests w0))) = false ->
   WeatherResponse.location r1 = strip location)
  /\ (WeatherResponse.location r1 = strip location ->
      now2 - now1 <= 1800 * 1000000 ->
      exists e r2,
        In e (cache w1)
        /\ WeatherCache.location e = strip location
        /\ WeatherCache.cached_at e = now1
        /\ WeatherService.get_weather_for_location env2 now2 location w1
           = (Ok r2, w1)
        /\ r2 = response_of_row e
        /\ r2 = stored_response r1
        /\ WeatherResponse.temperature r2
           = stored_real (WeatherResponse.temperature r1)
        /\ PrimFloat.eqb (WeatherResponse.temperature r2)
             (WeatherResponse.temperature r1) = true
        /\ WeatherResponse.condition r2 = WeatherResponse.condition r1
        /\ WeatherResponse.humidity r2 = WeatherResponse.humidity r1
        /\ WeatherResponse.wind_speed r2
           = stored_real (WeatherResponse.wind_speed r1)
        /\ PrimFloat.eqb (WeatherResponse.wind_speed r2)
             (WeatherResponse.wind_speed r1) = true).
Proof.
  intros ND Miss Call.
  destruct (get_weather_miss_entry env1 now1 location w0 w1 r1 ND Miss Call)
    as (NB & ND1 & N & R & _ & Src & _ & e & S & Re & Same & At).
  split.
  - intro Fail. destruct Src as [F|[_ M]].
    + rewrite F in Fail. discriminate.
    + destruct (generate_mock_weather_ok (hash env1) now1 (strip location))
        as (t & ws & _ & _ & _ & _ & M').
      rewrite M' in M. now inversion M.
  - intros Key Age. rewrite Key in S.
    pose proof (select_first_Some _ _ _ S) as [Hin El].
    assert (Hit : WeatherRepository.get_cached_weather now2 (strip location)
                    (cache w1) = (Some e, cache w1)).
    { unfold WeatherRepository.get_cached_weather. rewrite S.
      replace (WeatherCache.is_expired now2 e) with false; auto.
      symmetry. apply is_expired_false. unfold thirty_minutes. lia. }
    exists e, (response_of_row e).
    rewrite (get_weather_hit env2 now2 location w1 e NB Hit Re), Same.
    repeat split; auto.
    + apply stored_real_eqb. exact N.
    + apply stored_real_eqb. unfold response_in_range in R.
      apply andb_true_iff in R as [_ Rw]. exact (leb_not_nan _ _ Rw).
Qed.

Lemma get_weather_second_call_is_cache_hit_witness :
  one_per_location (cache empty_world)
  /\ WeatherService.get_weather_for_location keyless_env (10 * minute)
       "Paris" empty_world
     = (Ok (response_of_row paris_mock_row), mkWorld [paris_mock_row] [])
  /\ WeatherService.get_weather_for_location keyed_env (39 * minute)
       "Paris" (mkWorld [paris_mock_row] [])
     = (Ok (response_of_row paris_mock_row), mkWorld [paris_mock_row] []).
Proof.
  assert (ND : one_per_location (cache empty_world)) by constructor.
  assert (Call : WeatherService.get_weather_for_location keyless_env
                   (10 * minute) "Paris" empty_world
                 = (Ok (response_of_row paris_mock_row),
                    mkWorld [paris_mock_row] []))
    by (vm_compute; reflexivity).
  assert (Age : 39 * minute - 10 * minute <= 1800 * 1000000)
    by (vm_compute; discriminate).
  split; [exact ND|split; [exact Call|]].
  destruct (proj2 (get_weather_second_call_is_cache_hit keyless_env keyed_env
                     (10 * minute) (39 * minute) "Paris" empty_world
                     (mkWorld [paris_mock_row] [])
                     (response_of_row paris_mock_row) ND eq_refl Call)
              eq_refl Age)
    as (e & r2 & _ & _ & _ & E & _ & Er & _).
  rewrite E, Er. reflexivity.
Defined.

(** That a second call within thirty minutes is always a cache hit, as
    the specification has it, fails when the provider reports the location
    under another name: the first call for "london" stores its snapshot
    under "London", and a second call one minute later misses, asks the
    provider again and rewrites the entry. *)
Lemma second_call_misses_after_rename :
  WeatherService.get_weather_for_location keyed_env (10 * minute) "london"
    empty_world
  = (Ok (WeatherResponse.mk "London" 18.5%float "Light Rain" 72 18%float
           (10 * minute)),
     mkWorld
       [WeatherCache.mk (Some 1) "London" 18.5%float "Light Rain" 72 18%float
          (10 * minute) (10 * minute)]
       ["london"%string])
  /\ WeatherService.get_weather_for_location keyed_env (11 * minute) "london"
       (mkWorld
          [WeatherCache.mk (Some 1) "London" 18.5%float "Light Rain" 72
             18%float (10 * minute) (10 * minute)]
          ["london"%string])
     = (Ok (WeatherResponse.mk "London" 18.5%float "Light Rain" 72 18%float
              (11 * minute)),
        mkWorld
          [WeatherCache.mk (Some 1) "London" 18.5%float "Light Rain" 72
             18%float (11 * minute) (11 * minute)]
          ["london"%string; "london"%string]).
Proof. split; vm_compute; reflexivity. Qed.

(** C6.  On a cache miss where the provider fetch succeeds, the snapshot
    carries the provider's reported name as its location.  The call
    returns it unless its temperature is NaN, and the entry the cache then
    holds under that name is this snapshot as the store keeps it, cached
    at [now].  When the name differs from the trimmed requested location,
    the cache holds no entry for the requested location afterwards: a
    later call for it, at any time, misses again, and sends a new request
    to the provider when a credential is configured.  With a NaN
    temperature the call raises the store's [IntegrityError] instead. *)
Theorem provider_name_is_the_cache_key (env : Env) (now : datetime)
    (location : string) (w : World) (r : WeatherResponse.t) :
  one_per_location (cache w) ->
  strip location <> EmptyString ->
  fst (WeatherRepository.get_cached_weather now (strip location) (cache w))
  = None ->
  fst (WeatherService._fetch_weather_from_api env now (strip location)
         (requests w)) = Ok r ->
  exists status_code p,
    http_get env (strip location) = Response status_code (Payload p)
    /\ WeatherResponse.location r = WeatherAPIRequest.name p
    /\ (PrimFloat.is_nan (WeatherResponse.temperature r) = false ->
        exists w',
          WeatherService.get_weather_for_location env now location w
          = (Ok r, w')
          /\ (exists e,
                WeatherRepository.select_first (WeatherAPIRequest.name p)
                  (cache w') = Some e
                /\ response_of_row e = stored_response r
                /\ WeatherCache.location e = WeatherAPIRequest.name p
                /\ WeatherCache.cached_at e = now)
          /\ (WeatherAPIRequest.name p <> strip location ->
              forall env2 now2,
                fst (WeatherRepository.get_cached_weather now2
                       (strip location) (cache w')) = None
                /\ (WeatherService.key_configured env2 = true ->
                    requests (snd (WeatherService.get_weather_for_location
                                     env2 now2 location w'))
                    = strip location :: requests w')))
    /\ (PrimFloat.is_nan (WeatherResponse.temperature r) = true ->
        exists w',
          WeatherService.get_weather_for_location env now location w
          = (Raise IntegrityError, w')).
Proof.
  intros ND NB Miss Fetch.
  pose proof (fetch_ok_inv _ _ _ _ _ Fetch) as (_ & code & b & Hg & _ & P).
  apply parse_response_ok_inv in P
    as (p & temp & first & rest & d & h & ws & -> & _ & _ & _ & _ & _ & C).
  apply create_ok in C as (Cl & _).
  exists code, p. split; [exact Hg|split; [exact Cl|]].
  destruct (WeatherRepository.get_cached_weather now (strip location)
              (cache w)) as [c tbl1] eqn:G.
  cbn [fst] in Miss. subst c.
  destruct (get_weather_miss env now location w tbl1 NB G)
    as (r0 & Src & _ & E & _).
  assert (r0 = r) as ->.
  { destruct Src as [F|[[e F] _]]; congruence. }
  clear Src.
  split; intro N; rewrite N in E; [|eauto].
  eexists. split; [exact E|].
  assert (Miss : fst (WeatherRepository.get_cached_weather now
                        (strip location) (cache w)) = None)
    by now rewrite G.
  destruct (get_weather_miss_entry env now location w _ r ND Miss E)
    as (_ & ND2 & _ & _ & _ & _ & Absent & e & S & _ & Same & At).
  rewrite <- Cl. split.
  - exists e. split; [exact S|split; [exact Same|split; [|exact At]]].
    now apply select_first_Some in S.
  - intros Other env2 now2.
    set (w' := mkWorld _ _) in *.
    assert (G2 : WeatherRepository.get_cached_weather now2 (strip location)
                   (cache w') = (None, cache w')).
    { unfold WeatherRepository.get_cached_weather.
      now rewrite (select_first_absent (strip location) (cache w')
                     (Absent Other)). }
    rewrite G2. split; [reflexivity|].
    intro Key.
    destruct (get_weather_miss env2 now2 location w' (cache w') NB G2)
      as (r2 & _ & _ & E2 & _).
    rewrite E2. cbn [snd requests].
    now rewrite !fetch_requests, Key.
Qed.

Lemma provider_name_is_the_cache_key_witness :
  one_per_location (cache empty_world)
  /\ strip "london" <> EmptyString
  /\ exists r w',
       WeatherService.get_weather_for_location keyed_env 7 "london"
         empty_world = (Ok r, w')
       /\ WeatherResponse.location r = "London"%string
       /\ fst (WeatherRepository.get_cached_weather 8 "london" (cache w'))
          = None.
Proof.
  assert (ND : one_per_location (cache empty_world)) by constructor.
  assert (NB : strip "london" <> EmptyString) by (vm_compute; discriminate).
  split; [exact ND|split; [exact NB|]].
  destruct (provider_name_is_the_cache_key keyed_env 7 "london" empty_world
              (WeatherResponse.mk "London" 18.5%float "Light Rain" 72
                 18%float 7) ND NB eq_refl eq_refl)
    as (code & p & Hg & Cl & Returned & _).
  destruct (Returned eq_refl) as (w' & E & _ & Again).
  exists (WeatherResponse.mk "London" 18.5%float "Light Rain" 72 18%float 7), w'.
  split; [exact E|split; [reflexivity|]].
  apply (Again ltac:(rewrite <- Cl; vm_compute; discriminate) keyed_env 8).
Defined.

(** ** Reproducibility of the mock generator *)

(** Within one process (one [hash]), two calls for the same location give
    the same temperature, condition, humidity and wind speed, all derived
    from the index [hash(location.lower()) % 100]; only updated-at follows
    the clock. *)
Lemma generate_mock_weather_same_process (hash : string -> Z)
    (now1 now2 : datetime) (location : string) :
  exists r1 r2,
    MockWeatherResponse.generate_mock_weather hash now1 location = Ok r1
    /\ MockWeatherResponse.generate_mock_weather hash now2 location = Ok r2
    /\ WeatherResponse.temperature r1 = WeatherResponse.temperature r2
    /\ WeatherResponse.condition r1 = WeatherResponse.condition r2
    /\ WeatherResponse.humidity r1 = WeatherResponse.humidity r2
    /\ WeatherResponse.wind_speed r1 = WeatherResponse.wind_speed r2
    /\ WeatherResponse.humidity r1 = 40 + mock_index hash location mod 50
    /\ WeatherResponse.updated_at r1 = now1
    /\ WeatherResponse.updated_at r2 = now2.
Proof.
  destruct (generate_mock_weather_ok hash now1 location)
    as (t1 & w1 & Et1 & Ew1 & _ & _ & M1).
  destruct (generate_mock_weather_ok hash now2 location)
    as (t2 & w2 & Et2 & Ew2 & _ & _ & M2).
  rewrite M1, M2. do 2 eexists. split; [reflexivity|split; [reflexivity|]].
  cbn. repeat split; congruence.
Qed.

(** C2.  The index comes from the interpreter's salted [hash]: in two
    processes started with hash seeds 1 and 2, the mock weather of
    ["Tokyo"] has indices 40 and 56, hence different temperatures (30 and
    21), humidities (80 and 46) and wind speeds (5 and 21). *)
Theorem generate_mock_weather_differs_across_processes :
  mock_index (CPython.str_hash 1) "Tokyo" = 40
  /\ mock_index (CPython.str_hash 2) "Tokyo" = 56
  /\ MockWeatherResponse.generate_mock_weather (CPython.str_hash 1) 0 "Tokyo"
     = Ok (WeatherResponse.mk "Tokyo" 30%float "Sunny" 80 5%float 0)
  /\ MockWeatherResponse.generate_mock_weather (CPython.str_hash 2) 0 "Tokyo"
     = Ok (WeatherResponse.mk "Tokyo" 21%float "Sunny" 46 21%float 0)
  /\ PrimFloat.eqb 30%float 21%float = false
  /\ PrimFloat.eqb 5%float 21%float = false.
Proof. repeat split; vm_compute; reflexivity. Qed.

(** ** The trip service: [update_trip] *)

Lemma get_by_id_Some (trip_id : Z) (tbl : list Trip.t) (trip : Trip.t) :
  TripRepository.get_by_id trip_id tbl = Some trip ->
  In trip tbl /\ Trip.id trip = Some trip_id.
Proof.
  unfold TripRepository.get_by_id. intro H.
  apply find_some in H as [Hin E]. split; auto. now apply same_id_eq.
Qed.

(** Reading back after [update]: the updated key yields the written
    object, every other key yields what it yielded before. *)
Lemma get_by_id_update (trip_id j : Z) (trip existing : Trip.t)
    (tbl : list Trip.t) :
  Trip.id trip = Some trip_id ->
  TripRepository.get_by_id trip_id tbl = Some existing ->
  TripRepository.get_by_id j (snd (TripRepository.update trip tbl))
  = if j =? trip_id then Some trip else TripRepository.get_by_id j tbl.
Proof.
  intros Ei. unfold TripRepository.update, TripRepository.get_by_id.
  cbn [snd]. rewrite Ei.
  assert (Other : forall l, j <> trip_id ->
            find (fun r => same_id (Trip.id r) (Some j))
              (map (fun r => if same_id (Trip.id r) (Some trip_id)
                             then trip else r) l)
            = find (fun r => same_id (Trip.id r) (Some j)) l).
  { intros l Hj. induction l as [|a l IH]; cbn [map find]; auto.
    destruct (same_id (Trip.id a) (Some trip_id)) eqn:Ea.
    - apply same_id_eq in Ea. rewrite Ea, Ei. cbn [same_id].
      replace (trip_id =? j) with false by (symmetry; apply Z.eqb_neq; lia).
      exact IH.
    - destruct (same_id (Trip.id a) (Some j)); auto. }
  induction tbl as [|a tbl IH]; cbn [map find]; [discriminate|].
  destruct (same_id (Trip.id a) (Some trip_id)) eqn:Ea.
  - intros _. rewrite Ei. cbn [same_id].
    destruct (Z.eqb_spec j trip_id) as [->|Hj].
    + now rewrite Z.eqb_refl.
    + replace (trip_id =? j) with false by (symmetry; apply Z.eqb_neq; lia).
      rewrite (Other tbl Hj).
      apply same_id_eq in Ea. rewrite Ea. cbn [same_id].
      now replace (trip_id =? j) with false
        by (symmetry; apply Z.eqb_neq; lia).
  - intro H. specialize (IH H).
    destruct (same_id (Trip.id a) (Some j)) eqn:Ej; auto.
    destruct (Z.eqb_spec j trip_id) as [->|Hj]; auto. congruence.
Qed.

(** [update_trip] raises nothing but the 404 of an unknown trip or the
    store's refusal of a null: it has no validation step. *)
Lemma update_trip_outcomes (now : datetime) (trip_id : Z)
    (updates : TripUpdate.t) (tbl : list Trip.t) :
  match fst (TripService.update_trip now trip_id updates tbl) with
  | Ok _ => True
  | Raise e => e = TripService.not_found trip_id \/ e = IntegrityError
  end.
Proof.
  unfold TripService.update_trip.
  destruct (TripRepository.get_by_id trip_id tbl) as [existing|];
    [|cbn; auto].
  destruct (TripService.setattr (TripUpdate.name updates) _);
    [|cbn; auto].
  destruct (TripService.setattr (TripUpdate.destination updates) _);
    [|cbn; auto].
  destruct (TripService.setattr (TripUpdate.start_date updates) _);
    [|cbn; auto].
  destruct (TripService.setattr (TripUpdate.end_date updates) _);
    cbn; auto.
Qed.

(** The request model rejects a range given whole in one request. *)
Lemma TripUpdate_rejects_bad_range (u : TripUpdate.t) (s e : date) :
  TripUpdate.start_date u = Provided (Some s) ->
  TripUpdate.end_date u = Provided (Some e) ->
  e <= s ->
  TripUpdate.validate u = Raise (ValueError "validation error").
Proof.
  intros Hs He Hle. unfold TripUpdate.validate,
    TripUpdate.validate_dates_if_provided.
  rewrite Hs, He.
  replace (e <=? s) with true by (symmetry; apply Z.leb_le; lia).
  cbn. now rewrite andb_false_r.
Qed.

(** An update that provides the end date alone is stored whatever the
    stored start date is. *)
Lemma update_trip_end_date_only (now : datetime) (trip_id : Z) (e : date)
    (tbl : list Trip.t) (existing : Trip.t) :
  TripRepository.get_by_id trip_id tbl = Some existing ->
  TripUpdate.validate (end_date_only e) = Ok (end_date_only e)
  /\ exists resp tbl',
       TripService.update_trip now trip_id (end_date_only e) tbl
       = (Ok resp, tbl')
       /\ TripRepository.get_by_id trip_id tbl'
          = Some (Trip.mk (Trip.id existing) (Trip.name existing)
                    (Trip.destination existing) (Trip.start_date existing)
                    e (Trip.notes existing) (Trip.created_at existing) now).
Proof.
  intro G. split; [reflexivity|].
  unfold TripService.update_trip. rewrite G. cbn.
  do 2 eexists. split; [reflexivity|].
  pose proof (get_by_id_Some _ _ _ G) as [_ Ei].
  match goal with
  | |- TripRepository.get_by_id _ (map _ _) = Some ?t =>
      pose proof (get_by_id_update trip_id trip_id t existing tbl Ei G) as U
  end.
  rewrite Z.eqb_refl in U. exact U.
Qed.

(** C1.  The trip "Rome" runs from day 100 to day 110.  An update that
    provides only the end date 90 is a valid request; [update_trip]
    accepts it, raises nothing and stores the end date 90 with the start
    date 100: the stored trip ends before it starts and lasts -10 days. *)
Theorem update_trip_does_not_revalidate_merged_dates :
  TripUpdate.validate (end_date_only 90) = Ok (end_date_only 90)
  /\ TripService.update_trip 9 1 (end_date_only 90) [rome_trip]
     = (Ok (TripResponse.mk 1 "Rome" "Rome, Italy" 100 90 None 5 9 (-10)),
        [Trip.mk (Some 1) "Rome" "Rome, Italy" 100 90 None 5 9])
  /\ Trip.end_after_start
       (Trip.mk (Some 1) "Rome" "Rome, Italy" 100 90 None 5 9) = false.
Proof. repeat split; reflexivity. Qed.

(** C9.  For an existing trip, an update that provides only the notes
    succeeds; the stored trip keeps its key, name, destination, start
    date, end date and created-at, has the provided notes, and has
    updated-at equal to the current time; the response shows the same;
    every other trip reads as before. *)
Theorem update_trip_notes_only (now : datetime) (trip_id : Z)
    (v : option string) (tbl : list Trip.t) (existing : Trip.t) :
  TripRepository.get_by_id trip_id tbl = Some existing ->
  exists resp tbl',
    TripService.update_trip now trip_id (notes_only v) tbl = (Ok resp, tbl')
    /\ TripRepository.get_by_id trip_id tbl'
       = Some (Trip.mk (Trip.id existing) (Trip.name existing)
                 (Trip.destination existing) (Trip.start_date existing)
                 (Trip.end_date existing) v (Trip.created_at existing) now)
    /\ TripResponse.name resp = Trip.name existing
    /\ TripResponse.destination resp = Trip.destination existing
    /\ TripResponse.start_date resp = Trip.start_date existing
    /\ TripResponse.end_date resp = Trip.end_date existing
    /\ TripResponse.created_at resp = Trip.created_at existing
    /\ TripResponse.notes resp = v
    /\ TripResponse.updated_at resp = now
    /\ List.length tbl' = List.length tbl
    /\ (forall j, j <> trip_id ->
          TripRepository.get_by_id j tbl' = TripRepository.get_by_id j tbl).
Proof.
  intro G. unfold TripService.update_trip. rewrite G. cbn.
  do 2 eexists. split; [reflexivity|].
  pose proof (get_by_id_Some _ _ _ G) as [_ Ei].
  match goal with
  | |- TripRepository.get_by_id _ (map _ _) = Some ?t /\ _ =>
      pose proof (fun j => get_by_id_update trip_id j t existing tbl Ei G) as U
  end.
  cbn [TripRepository.update snd Trip.id] in U.
  split.
  - rewrite (U trip_id). now rewrite Z.eqb_refl.
  - repeat split; auto.
    + apply length_map.
    + intros j Hj. rewrite (U j).
      now replace (j =? trip_id) with false
        by (symmetry; apply Z.eqb_neq; lia).
Qed.

Lemma update_trip_notes_only_witness :
  TripRepository.get_by_id 1 [rome_trip] = Some rome_trip
  /\ TripService.update_trip 9 1 (notes_only (Some "pack light"%string))
       [rome_trip]
     = (Ok (TripResponse.mk 1 "Rome" "Rome, Italy" 100 110
              (Some "pack light"%string) 5 9 10),
        [Trip.mk (Some 1) "Rome" "Rome, Italy" 100 110
           (Some "pack light"%string) 5 9]).
Proof.
  split; [reflexivity|].
  destruct (update_trip_notes_only 9 1 (Some "pack light"%string) [rome_trip]
              rome_trip eq_refl) as (resp & tbl' & E & _).
  rewrite E. vm_compute in E. inversion E. reflexivity.
Defined.

(** ** The invariants along the service *)

Lemma store_weather_cache_pk_unique (now : datetime) (wc : WeatherCache.t)
    (tbl : list WeatherCache.t) :
  pk_unique tbl ->
  pk_unique (snd (WeatherRepository.store_weather_cache now wc tbl)).
Proof.
  intro PK.
  pose proof (get_cached_weather_pk_unique now (WeatherCache.location wc) tbl
                PK) as PK1.
  destruct (store_weather_cache_cases now wc tbl)
    as [(err & E & _)|[(e & G & _ & E)|(tbl1 & G & _ & K & E)]];
    rewrite E; cbn [snd]; auto.
  - unfold pk_unique. rewrite map_map.
    erewrite map_ext; [exact PK|].
    intro r. now destruct (same_id (WeatherCache.id r) (WeatherCache.id e)).
  - rewrite G in PK1. cbn [snd] in PK1.
    unfold pk_unique. rewrite map_app.
    apply NoDup_app; auto.
    + repeat constructor. simpl. tauto.
    + intros i Hi [Ei|[]]. subst i.
      now apply (key_taken_false wc tbl1 K).
Qed.

(** The invariants of the cache table hold after a call of the service
    when they held before it. *)
Lemma get_weather_preserves_invariants (env : Env) (now : datetime)
    (location : string) (w : World) :
  pk_unique (cache w) -> one_per_location (cache w) ->
  rows_in_range (cache w) ->
  pk_unique
    (cache (snd (WeatherService.get_weather_for_location env now location w)))
  /\ one_per_location
       (cache (snd (WeatherService.get_weather_for_location env now
                      location w)))
  /\ rows_in_range
       (cache (snd (WeatherService.get_weather_for_location env now
                      location w))).
Proof.
  intros PK ND R.
  destruct (string_dec (strip location) EmptyString) as [B|NB].
  - now rewrite (get_weather_blank env now location w B).
  - destruct (WeatherRepository.get_cached_weather now (strip location)
                (cache w)) as [[c|] tbl1] eqn:G.
    + pose proof (get_cached_weather_hit _ _ _ _ _ G) as (-> & S & _).
      rewrite (get_weather_hit env now location w c NB G); auto.
      eapply rows_in_range_select; eauto.
    + destruct (get_weather_miss env now location w tbl1 NB G)
        as (r & _ & Rr & E & _).
      rewrite E. cbn [snd cache].
      destruct (get_cached_weather_miss _ _ _ _ ND G) as [ND1 _].
      pose proof (get_cached_weather_rows_in_range now (strip location)
                    (cache w) R) as R1.
      pose proof (get_cached_weather_pk_unique now (strip location)
                    (cache w) PK) as PK1.
      rewrite G in R1, PK1. cbn [snd] in R1, PK1.
      split; [|split].
      * now apply store_weather_cache_pk_unique.
      * now apply store_weather_cache_one_per_location.
      * apply store_weather_cache_rows_in_range; auto.
Qed.

(** * Further properties of the trip store *)

From Stdlib Require Import Permutation Sorted.

Lemma get_by_id_app (j : Z) (tbl : list Trip.t) (row : Trip.t) :
  TripRepository.get_by_id j (tbl ++ [row])
  = match TripRepository.get_by_id j tbl with
    | Some t => Some t
    | None => if same_id (Trip.id row) (Some j) then Some row else None
    end.
Proof.
  unfold TripRepository.get_by_id.
  induction tbl as [|a tbl IH]; cbn [app find].
  - now destruct (same_id (Trip.id row) (Some j)).
  - now destruct (same_id (Trip.id a) (Some j)).
Qed.

Lemma get_by_id_None (j : Z) (tbl : list Trip.t) :
  TripRepository.get_by_id j tbl = None
  <-> ~ In (Some j) (map Trip.id tbl).
Proof.
  unfold TripRepository.get_by_id. split.
  - intros H Hin. apply in_map_iff in Hin as (t & E & Hin).
    pose proof (find_none _ _ H t Hin) as F. cbn in F.
    rewrite E, same_id_refl in F. discriminate.
  - intro H.
    destruct (find (fun r => same_id (Trip.id r) (Some j)) tbl) as [t|] eqn:F;
      auto.
    exfalso. apply find_some in F as [Hin E]. apply same_id_eq in E.
    apply H. rewrite <- E. now apply in_map.
Qed.

(** The row [TripRepository.create] writes is read back under its new
    key, and the keys of the table read as before. *)
Lemma get_by_id_create (trip : Trip.t) (tbl : list Trip.t) (j : Z) :
  TripRepository.get_by_id j (snd (TripRepository.create trip tbl))
  = if j =? next_id (map Trip.id tbl)
    then Some (fst (TripRepository.create trip tbl))
    else TripRepository.get_by_id j tbl.
Proof.
  unfold TripRepository.create. cbn [fst snd].
  rewrite get_by_id_app. cbn [Trip.id same_id].
  destruct (Z.eqb_spec j (next_id (map Trip.id tbl))) as [->|Hj].
  - rewrite Z.eqb_refl.
    now rewrite (proj2 (get_by_id_None _ tbl) (next_id_fresh _)).
  - replace (next_id (map Trip.id tbl) =? j) with false
      by (symmetry; apply Z.eqb_neq; lia).
    now destruct (TripRepository.get_by_id j tbl).
Qed.

(** X1.  [create_trip] always succeeds.  The response carries a key that
    no stored trip had, the submitted name, destination, dates and notes,
    both timestamps equal to the current time and the duration
    [end_date - start_date]; reading the new key back gives the same
    response, and every other key reads as before. *)
Theorem create_trip_read_back (now : datetime) (trip_data : TripCreate.t)
    (tbl : list Trip.t) :
  exists resp tbl',
    TripService.create_trip now trip_data tbl = (Ok resp, tbl')
    /\ ~ In (Some (TripResponse.id resp)) (map Trip.id tbl)
    /\ TripService.get_trip_by_id (TripResponse.id resp) tbl' = Ok resp
    /\ TripResponse.name resp = TripCreate.name trip_data
    /\ TripResponse.destination resp = TripCreate.destination trip_data
    /\ TripResponse.start_date resp = TripCreate.start_date trip_data
    /\ TripResponse.end_date resp = TripCreate.end_date trip_data
    /\ TripResponse.notes resp = TripCreate.notes trip_data
    /\ TripResponse.created_at resp = now
    /\ TripResponse.updated_at resp = now
    /\ TripResponse.duration_days resp
       = TripCreate.end_date trip_data - TripCreate.start_date trip_data
    /\ List.length tbl' = S (List.length tbl)
    /\ (forall j, j <> TripResponse.id resp ->
          TripRepository.get_by_id j tbl' = TripRepository.get_by_id j tbl).
Proof.
  unfold TripService.create_trip.
  set (trip := Trip.mk None _ _ _ _ _ now now).
  pose proof (fun j => get_by_id_create trip tbl j) as G.
  destruct (TripRepository.create trip tbl) as [created tbl'] eqn:C.
  unfold TripRepository.create in C. inversion C as [[Hc Ht]].
  cbn [fst snd] in G.
  do 2 eexists. split; [reflexivity|].
  cbn [TripResponse.from_trip TripResponse.id Trip.id id_value
       TripResponse.name TripResponse.destination TripResponse.start_date
       TripResponse.end_date TripResponse.notes TripResponse.created_at
       TripResponse.updated_at TripResponse.duration_days
       Trip.name Trip.destination Trip.start_date Trip.end_date Trip.notes
       Trip.created_at Trip.updated_at].
  split; [apply next_id_fresh|]. split.
  - unfold TripService.get_trip_by_id. rewrite Ht, G, Z.eqb_refl.
    now rewrite <- Hc.
  - repeat split.
    + rewrite length_app. cbn. lia.
    + intros j Hj. rewrite Ht, G.
      now replace (j =? next_id (map Trip.id tbl)) with false
        by (symmetry; apply Z.eqb_neq; lia).
Qed.

(** X2.  A creation request that passed the request model gives a trip of
    at least one day, with a name of 1 to 100 characters and a destination
    that is not empty; when every stored trip ended after it started, so
    does every trip stored after the creation. *)
Theorem create_trip_validated (now : datetime) (trip_data : TripCreate.t)
    (tbl : list Trip.t) :
  TripCreate.validate trip_data = Ok trip_data ->
  exists resp tbl',
    TripService.create_trip now trip_data tbl = (Ok resp, tbl')
    /\ 1 <= TripResponse.duration_days resp
    /\ 1 <= len (TripResponse.name resp) <= 100
    /\ 1 <= len (TripResponse.destination resp)
    /\ (Forall (fun t => Trip.end_after_start t = true) tbl ->
        Forall (fun t => Trip.end_after_start t = true) tbl').
Proof.
  unfold TripCreate.validate. intro V.
  destruct (TripCreate.fields_ok trip_data
            && TripCreate.validate_end_after_start trip_data) eqn:E;
    [|discriminate].
  apply andb_true_iff in E as [F D].
  unfold TripCreate.fields_ok in F.
  apply andb_true_iff in F as [F _]. apply andb_true_iff in F as [F Fd].
  apply andb_true_iff in F as [Fn1 Fn2].
  unfold TripCreate.validate_end_after_start in D.
  apply negb_true_iff, Z.leb_gt in D.
  apply Z.leb_le in Fn1, Fn2, Fd.
  unfold TripService.create_trip, TripRepository.create.
  do 2 eexists. split; [reflexivity|].
  cbn [TripResponse.from_trip TripResponse.duration_days Trip.duration_days
       TripResponse.name TripResponse.destination Trip.name Trip.destination
       Trip.start_date Trip.end_date].
  unfold Trip.duration_days. cbn [Trip.start_date Trip.end_date].
  split; [lia|split; [lia|split; [lia|]]].
  intro Inv. apply Forall_app. split; auto.
  constructor; auto.
  unfold Trip.end_after_start. cbn. apply Z.ltb_lt. lia.
Qed.

Lemma create_trip_validated_witness :
  TripCreate.validate (TripCreate.mk "Fjords" "Oslo" 200 207 None)
  = Ok (TripCreate.mk "Fjords" "Oslo" 200 207 None)
  /\ exists resp tbl',
       TripService.create_trip 8 (TripCreate.mk "Fjords" "Oslo" 200 207 None)
         [rome_trip] = (Ok resp, tbl')
       /\ 1 <= TripResponse.duration_days resp.
Proof.
  split; [reflexivity|].
  destruct (create_trip_validated 8 (TripCreate.mk "Fjords" "Oslo" 200 207 None)
              [rome_trip] eq_refl) as (resp & tbl' & E & D & _).
  exists resp, tbl'. auto.
Defined.

Lemma get_by_id_filter (j : Z) (i : option Z) (tbl : list Trip.t) :
  TripRepository.get_by_id j
    (filter (fun r => negb (same_id (Trip.id r) i)) tbl)
  = if same_id (Some j) i then None else TripRepository.get_by_id j tbl.
Proof.
  unfold TripRepository.get_by_id.
  induction tbl as [|a tbl IH]; cbn [filter find].
  - now destruct (same_id (Some j) i).
  - destruct (same_id (Trip.id a) i) eqn:Ea; cbn [negb find].
    + rewrite IH. apply same_id_eq in Ea. subst i.
      destruct (same_id (Some j) (Trip.id a)) eqn:Ej; auto.
      destruct (same_id (Trip.id a) (Some j)) eqn:Ej'; auto.
      apply same_id_eq in Ej'. rewrite Ej', same_id_refl in Ej. discriminate.
    + destruct (same_id (Trip.id a) (Some j)) eqn:Ej; auto.
      apply same_id_eq in Ej.
      destruct (same_id (Some j) i) eqn:Ei; auto.
      apply same_id_eq in Ei. rewrite Ej, Ei, same_id_refl in Ea.
      discriminate.
Qed.

(** X3.  Deleting a stored trip succeeds and removes the rows of that key
    and no other: the key then reads as not found, a second delete raises
    the 404, and every other key reads as before. *)
Theorem delete_trip_existing (trip_id : Z) (tbl : list Trip.t)
    (trip : Trip.t) :
  TripRepository.get_by_id trip_id tbl = Some trip ->
  exists tbl',
    TripService.delete_trip trip_id tbl = (Ok tt, tbl')
    /\ TripService.get_trip_by_id trip_id tbl'
       = Raise (TripService.not_found trip_id)
    /\ TripService.delete_trip trip_id tbl'
       = (Raise (TripService.not_found trip_id), tbl')
    /\ (forall j, j <> trip_id ->
          TripRepository.get_by_id j tbl' = TripRepository.get_by_id j tbl)
    /\ (forall x, In x tbl' <-> In x tbl /\ Trip.id x <> Some trip_id).
Proof.
  intro G. pose proof (get_by_id_Some _ _ _ G) as [_ Ei].
  unfold TripService.delete_trip, TripRepository.delete. rewrite G, Ei.
  eexists. split; [reflexivity|].
  assert (Gone : TripRepository.get_by_id trip_id
                   (filter (fun r => negb (same_id (Trip.id r)
                                                   (Some trip_id))) tbl)
                 = None).
  { now rewrite get_by_id_filter, same_id_refl. }
  split; [|split; [|split]].
  - unfold TripService.get_trip_by_id. now rewrite Gone.
  - now rewrite Gone.
  - intros j Hj. rewrite get_by_id_filter. cbn [same_id].
    now replace (j =? trip_id) with false by (symmetry; apply Z.eqb_neq; lia).
  - intro x. rewrite filter_In, negb_true_iff.
    split; intros [Hin H]; split; auto.
    + intro E. rewrite E, same_id_refl in H. discriminate.
    + apply not_true_is_false. intro E. now apply same_id_eq in E.
Qed.

Lemma delete_trip_existing_witness :
  TripRepository.get_by_id 1 sample_trips = Some rome_trip
  /\ TripService.delete_trip 1 sample_trips = (Ok tt, [oslo_trip]).
Proof.
  split; [reflexivity|].
  destruct (delete_trip_existing 1 sample_trips rome_trip eq_refl)
    as (tbl' & E & _).
  rewrite E. vm_compute in E. inversion E. reflexivity.
Defined.

(** X4.  For a key in the range of the store's integers that no stored
    trip carries, reading, updating and deleting the trip and asking the
    weather of the trip all raise the 404 "Trip with id ... not found"; the
    trip table, the weather cache and the log of provider requests are
    left as they were.  (A key outside the signed 64-bit range does not
    reach the table: the driver refuses to bind it.) *)
Theorem unknown_trip_is_not_found (env : Env) (now : datetime) (trip_id : Z)
    (updates : TripUpdate.t) (tbl : list Trip.t) (w : World) :
  int64 trip_id = true ->
  ~ In (Some trip_id) (map Trip.id tbl) ->
  TripService.get_trip_by_id trip_id tbl
  = Raise (TripService.not_found trip_id)
  /\ TripService.update_trip now trip_id updates tbl
     = (Raise (TripService.not_found trip_id), tbl)
  /\ TripService.delete_trip trip_id tbl
     = (Raise (TripService.not_found trip_id), tbl)
  /\ WeatherRoutes.get_weather_for_trip env now trip_id tbl w
     = (Raise (TripService.not_found trip_id), w).
Proof.
  intros _ H. apply get_by_id_None in H.
  unfold WeatherRoutes.get_weather_for_trip, TripService.get_trip_by_id,
    TripService.update_trip, TripService.delete_trip, TripRepository.delete.
  rewrite H. auto.
Qed.

Lemma unknown_trip_is_not_found_witness :
  int64 7 = true
  /\ ~ In (Some 7) (map Trip.id sample_trips)
  /\ TripService.delete_trip 7 sample_trips
     = (Raise (HTTPException 404 "Trip with id 7 not found"), sample_trips).
Proof.
  assert (H : ~ In (Some 7) (map Trip.id sample_trips))
    by (simpl; intuition discriminate).
  split; [reflexivity|split; [exact H|]].
  exact (proj1 (proj2 (proj2 (unknown_trip_is_not_found keyless_env 0 7
                                (notes_only None) sample_trips empty_world
                                eq_refl H)))).
Defined.

(** ** Listing the trips *)

Lemma insert_desc_perm (trip : Trip.t) (l : list Trip.t) :
  Permutation (TripRepository.insert_desc trip l) (trip :: l).
Proof.
  induction l as [|x l IH]; cbn [TripRepository.insert_desc]; auto.
  destruct (Trip.created_at x <=? Trip.created_at trip); auto.
  rewrite IH. apply perm_swap.
Qed.

Lemma insert_desc_sorted (trip : Trip.t) (l : list Trip.t) :
  StronglySorted (fun a b => Trip.created_at b <= Trip.created_at a) l ->
  StronglySorted (fun a b => Trip.created_at b <= Trip.created_at a)
    (TripRepository.insert_desc trip l).
Proof.
  induction l as [|x l IH]; cbn [TripRepository.insert_desc]; intro S.
  - repeat constructor.
  - inversion S as [|? ? Sl Fx]; subst.
    destruct (Z.leb_spec (Trip.created_at x) (Trip.created_at trip)) as [L|L].
    + constructor; auto. constructor; auto.
      rewrite Forall_forall in *. intros y Hy. specialize (Fx y Hy). lia.
    + constructor; auto.
      apply (Permutation_Forall (Permutation_sym (insert_desc_perm trip l))).
      constructor; auto. lia.
Qed.

(** X5.  [get_all_trips] returns one response per stored trip, each stored
    trip once, ordered by creation time, most recent first. *)
Theorem get_all_trips_most_recent_first (tbl : list Trip.t) :
  Permutation (TripService.get_all_trips tbl)
    (map TripResponse.from_trip tbl)
  /\ StronglySorted
       (fun a b => TripResponse.created_at b <= TripResponse.created_at a)
       (TripService.get_all_trips tbl)
  /\ List.length (TripService.get_all_trips tbl) = List.length tbl.
Proof.
  assert (P : Permutation (TripRepository.get_all tbl) tbl).
  { unfold TripRepository.get_all.
    induction tbl as [|a tbl IH]; cbn [fold_right]; auto.
    rewrite insert_desc_perm. now constructor. }
  assert (S : StronglySorted
                (fun a b => Trip.created_at b <= Trip.created_at a)
                (TripRepository.get_all tbl)).
  { unfold TripRepository.get_all. clear P.
    induction tbl as [|a tbl IH]; cbn [fold_right]; [constructor|].
    now apply insert_desc_sorted. }
  unfold TripService.get_all_trips. split; [|split].
  - now apply Permutation_map.
  - clear P. induction S as [|a l Sl IH Fa]; cbn [map].
    + constructor.
    + constructor; [exact IH|].
      apply Forall_forall. intros r Hr.
      apply in_map_iff in Hr as (t & <- & Ht). cbn.
      rewrite Forall_forall in Fa. now apply Fa.
  - rewrite length_map. now apply Permutation_length.
Qed.

(** ** The primary key and the merge of an update *)

Lemma update_keeps_ids (trip : Trip.t) (tbl : list Trip.t) :
  map Trip.id (snd (TripRepository.update trip tbl)) = map Trip.id tbl.
Proof.
  unfold TripRepository.update. cbn [snd]. rewrite map_map.
  apply map_ext. intro r.
  destruct (same_id (Trip.id r) (Trip.id trip)) eqn:E; auto.
  apply same_id_eq in E. now rewrite E.
Qed.

Lemma setattr_not_null {A : Type} (f : field A) (current : A) :
  not_null f = true ->
  TripService.setattr f (Some current) = Some (merged f current).
Proof. destruct f as [|[v|]]; cbn; intro H; auto. discriminate. Qed.

(** What [update_trip] does to an existing trip when none of the four
    NOT NULL columns is set to null. *)
Lemma update_trip_success (now : datetime) (trip_id : Z)
    (updates : TripUpdate.t) (tbl : list Trip.t) (existing : Trip.t) :
  TripRepository.get_by_id trip_id tbl = Some existing ->
  not_null (TripUpdate.name updates) = true ->
  not_null (TripUpdate.destination updates) = true ->
  not_null (TripUpdate.start_date updates) = true ->
  not_null (TripUpdate.end_date updates) = true ->
  TripService.update_trip now trip_id updates tbl
  = (Ok (TripResponse.from_trip
           (Trip.mk (Trip.id existing)
              (merged (TripUpdate.name updates) (Trip.name existing))
              (merged (TripUpdate.destination updates)
                      (Trip.destination existing))
              (merged (TripUpdate.start_date updates)
                      (Trip.start_date existing))
              (merged (TripUpdate.end_date updates) (Trip.end_date existing))
              (TripService.setattr (TripUpdate.notes updates)
                                   (Trip.notes existing))
              (Trip.created_at existing) now)),
     snd (TripRepository.update
            (Trip.mk (Trip.id existing)
               (merged (TripUpdate.name updates) (Trip.name existing))
               (merged (TripUpdate.destination updates)
                       (Trip.destination existing))
               (merged (TripUpdate.start_date updates)
                       (Trip.start_date existing))
               (merged (TripUpdate.end_date updates)
                       (Trip.end_date existing))
               (TripService.setattr (TripUpdate.notes updates)
                                    (Trip.notes existing))
               (Trip.created_at existing) now) tbl)).
Proof.
  intros G Nn Nd Ns Ne. unfold TripService.update_trip. rewrite G.
  rewrite (setattr_not_null _ _ Nn), (setattr_not_null _ _ Nd),
    (setattr_not_null _ _ Ns), (setattr_not_null _ _ Ne).
  reflexivity.
Qed.

(** X6.  The primary key of the trip table is kept: when no two stored
    trips carry the same key, the same holds after [create_trip], after
    [update_trip] and after [delete_trip], whatever their arguments and
    outcome. *)
Theorem trip_primary_key_preserved (now : datetime) (trip_id : Z)
    (trip_data : TripCreate.t) (updates : TripUpdate.t)
    (tbl : list Trip.t) :
  trip_pk_unique tbl ->
  trip_pk_unique (snd (TripService.create_trip now trip_data tbl))
  /\ trip_pk_unique (snd (TripService.update_trip now trip_id updates tbl))
  /\ trip_pk_unique (snd (TripService.delete_trip trip_id tbl)).
Proof.
  unfold trip_pk_unique. intro PK. split; [|split].
  - unfold TripService.create_trip, TripRepository.create. cbn [snd].
    rewrite map_app. apply NoDup_app; auto.
    + repeat constructor. simpl. tauto.
    + intros i Hi [E|[]]. subst i. cbn [Trip.id] in Hi.
      now apply next_id_fresh in Hi.
  - unfold TripService.update_trip.
    destruct (TripRepository.get_by_id trip_id tbl) as [existing|]; auto.
    destruct (TripService.setattr (TripUpdate.name updates) _); auto.
    destruct (TripService.setattr (TripUpdate.destination updates) _); auto.
    destruct (TripService.setattr (TripUpdate.start_date updates) _); auto.
    destruct (TripService.setattr (TripUpdate.end_date updates) _); auto.
    match goal with
    | |- context [TripRepository.update ?t tbl] =>
        pose proof (update_keeps_ids t tbl) as K;
        destruct (TripRepository.update t tbl) as [u tbl']
    end.
    cbn [snd] in *. now rewrite K.
  - unfold TripService.delete_trip, TripRepository.delete.
    destruct (TripRepository.get_by_id trip_id tbl) as [t|]; cbn [snd]; auto.
    now apply keyed_filter.
Qed.

Lemma trip_primary_key_preserved_witness :
  trip_pk_unique sample_trips
  /\ trip_pk_unique
       (snd (TripService.create_trip 9
               (TripCreate.mk "Alps" "Bern" 300 305 None) sample_trips)).
Proof.
  assert (PK : trip_pk_unique sample_trips).
  { unfold trip_pk_unique. simpl. nodup_by_computation. }
  split; [exact PK|].
  exact (proj1 (trip_primary_key_preserved 9 1
                  (TripCreate.mk "Alps" "Bern" 300 305 None)
                  (notes_only None) sample_trips PK)).
Defined.

(** X7.  For an existing trip and an update that sets none of name,
    destination, start date and end date to null, [update_trip] succeeds;
    each of these four fields of the stored trip is the provided value, or
    the previous one when the field was left out; the notes are the
    provided ones (null included) or the previous ones; the key and
    created-at are kept and updated-at is the current time.  The response
    is the stored trip, and every other key reads as before. *)
Theorem update_trip_merges_provided_fields (now : datetime) (trip_id : Z)
    (updates : TripUpdate.t) (tbl : list Trip.t) (existing : Trip.t) :
  TripRepository.get_by_id trip_id tbl = Some existing ->
  not_null (TripUpdate.name updates) = true ->
  not_null (TripUpdate.destination updates) = true ->
  not_null (TripUpdate.start_date updates) = true ->
  not_null (TripUpdate.end_date updates) = true ->
  exists stored tbl',
    TripService.update_trip now trip_id updates tbl
    = (Ok (TripResponse.from_trip stored), tbl')
    /\ TripRepository.get_by_id trip_id tbl' = Some stored
    /\ Trip.id stored = Some trip_id
    /\ Trip.name stored
       = merged (TripUpdate.name updates) (Trip.name existing)
    /\ Trip.destination stored
       = merged (TripUpdate.destination updates) (Trip.destination existing)
    /\ Trip.start_date stored
       = merged (TripUpdate.start_date updates) (Trip.start_date existing)
    /\ Trip.end_date stored
       = merged (TripUpdate.end_date updates) (Trip.end_date existing)
    /\ Trip.notes stored
       = match TripUpdate.notes updates with
         | Unset => Trip.notes existing
         | Provided v => v
         end
    /\ Trip.created_at stored = Trip.created_at existing
    /\ Trip.updated_at stored = now
    /\ List.length tbl' = List.length tbl
    /\ (forall j, j <> trip_id ->
          TripRepository.get_by_id j tbl' = TripRepository.get_by_id j tbl).
Proof.
  intros G Nn Nd Ns Ne.
  rewrite (update_trip_success now trip_id updates tbl existing G Nn Nd Ns Ne).
  pose proof (get_by_id_Some _ _ _ G) as [_ Ei].
  do 2 eexists. split; [reflexivity|].
  match goal with
  | |- TripRepository.get_by_id _ (snd (TripRepository.update ?t _)) = _ /\ _ =>
      pose proof (fun j => get_by_id_update trip_id j t existing tbl Ei G) as U
  end.
  split; [rewrite (U trip_id); now rewrite Z.eqb_refl|].
  cbn [Trip.id Trip.name Trip.destination Trip.start_date Trip.end_date
       Trip.notes Trip.created_at Trip.updated_at].
  repeat split; auto.
  - unfold TripRepository.update. cbn [snd]. apply length_map.
  - intros j Hj. rewrite (U j).
    now replace (j =? trip_id) with false by (symmetry; apply Z.eqb_neq; lia).
Qed.

Lemma update_trip_merges_provided_fields_witness :
  TripRepository.get_by_id 2 sample_trips = Some oslo_trip
  /\ exists stored tbl',
       TripService.update_trip 9 2
         (TripUpdate.mk (Provided (Some "Bergen line"%string)) Unset
            (Provided (Some 201)) Unset (Provided None)) sample_trips
       = (Ok (TripResponse.from_trip stored), tbl')
       /\ Trip.name stored = "Bergen line"%string
       /\ Trip.destination stored = "Oslo"%string
       /\ Trip.start_date stored = 201
       /\ Trip.end_date stored = 207
       /\ Trip.notes stored = None.
Proof.
  split; [reflexivity|].
  destruct (update_trip_merges_provided_fields 9 2
              (TripUpdate.mk (Provided (Some "Bergen line"%string)) Unset
                 (Provided (Some 201)) Unset (Provided None))
              sample_trips oslo_trip eq_refl eq_refl eq_refl eq_refl eq_refl)
    as (stored & tbl' & E & _ & _ & Hn & Hd & Hs & He & Ho & _).
  exists stored, tbl'. repeat split; assumption.
Defined.

(** X8.  When the request model accepted an update that provides both
    dates, a successful [update_trip] stores a trip that ends after it
    starts: the response and the stored trip carry the two provided dates
    and a duration of at least one day. *)
Theorem update_trip_with_both_dates (now : datetime) (trip_id : Z)
    (updates : TripUpdate.t) (tbl tbl' : list Trip.t) (s e : date)
    (resp : TripResponse.t) :
  TripUpdate.validate updates = Ok updates ->
  TripUpdate.start_date updates = Provided (Some s) ->
  TripUpdate.end_date updates = Provided (Some e) ->
  TripService.update_trip now trip_id updates tbl = (Ok resp, tbl') ->
  TripResponse.start_date resp = s
  /\ TripResponse.end_date resp = e
  /\ 1 <= TripResponse.duration_days resp
  /\ exists stored,
       TripRepository.get_by_id trip_id tbl' = Some stored
       /\ resp = TripResponse.from_trip stored
       /\ Trip.end_after_start stored = true.
Proof.
  intros V Hs He Call.
  assert (Lt : s < e).
  { unfold TripUpdate.validate in V.
    destruct (TripUpdate.fields_ok updates
              && TripUpdate.validate_dates_if_provided updates) eqn:E;
      [|discriminate].
    apply andb_true_iff in E as [_ D].
    unfold TripUpdate.validate_dates_if_provided in D.
    rewrite He, Hs in D. apply negb_true_iff, Z.leb_gt in D. lia. }
  unfold TripService.update_trip in Call.
  destruct (TripRepository.get_by_id trip_id tbl) as [existing|] eqn:G;
    [|discriminate].
  rewrite Hs, He in Call. cbn [TripService.setattr] in Call.
  destruct (TripService.setattr (TripUpdate.name updates) _) as [n|];
    [|discriminate].
  destruct (TripService.setattr (TripUpdate.destination updates) _) as [d|];
    [|discriminate].
  pose proof (get_by_id_Some _ _ _ G) as [_ Ei].
  match type of Call with
  | context [TripRepository.update ?t tbl] =>
      pose proof (get_by_id_update trip_id trip_id t existing tbl Ei G) as U;
      destruct (TripRepository.update t tbl) as [u tbl0] eqn:Up
  end.
  cbn [snd] in U. rewrite Z.eqb_refl in U.
  unfold TripRepository.update in Up.
  injection Up as Hu Ht. injection Call as Hr Hc.
  subst u resp tbl'.
  cbn. unfold Trip.duration_days. cbn [Trip.start_date Trip.end_date].
  split; [reflexivity|split; [reflexivity|split; [lia|]]].
  eexists. split; [exact U|]. split; [reflexivity|].
  unfold Trip.end_after_start. cbn. now apply Z.ltb_lt.
Qed.

Lemma update_trip_with_both_dates_witness :
  TripUpdate.validate
    (TripUpdate.mk Unset Unset (Provided (Some 120)) (Provided (Some 125))
       Unset)
  = Ok (TripUpdate.mk Unset Unset (Provided (Some 120)) (Provided (Some 125))
          Unset)
  /\ TripService.update_trip 9 1
       (TripUpdate.mk Unset Unset (Provided (Some 120)) (Provided (Some 125))
          Unset) [rome_trip]
     = (Ok (TripResponse.mk 1 "Rome" "Rome, Italy" 120 125 None 5 9 5),
        [Trip.mk (Some 1) "Rome" "Rome, Italy" 120 125 None 5 9])
  /\ 1 <= TripResponse.duration_days
            (TripResponse.mk 1 "Rome" "Rome, Italy" 120 125 None 5 9 5).
Proof.
  split; [reflexivity|split; [reflexivity|]].
  exact (proj1 (proj2 (proj2
    (update_trip_with_both_dates 9 1
       (TripUpdate.mk Unset Unset (Provided (Some 120)) (Provided (Some 125))
          Unset)
       [rome_trip] [Trip.mk (Some 1) "Rome" "Rome, Italy" 120 125 None 5 9]
       120 125 (TripResponse.mk 1 "Rome" "Rome, Italy" 120 125 None 5 9 5)
       eq_refl eq_refl eq_refl eq_refl)))).
Defined.

(** X9.  The trip routes never answer 400: [create_trip] raises nothing
    and [update_trip] raises only the 404 or the store's integrity error,
    so the [ValueError] handlers of the two routes never fire and each
    route returns exactly what the service returns. *)
Theorem trip_routes_never_answer_400 (now : datetime) (trip_id : Z)
    (trip_data : TripCreate.t) (updates : TripUpdate.t)
    (tbl : list Trip.t) :
  TripRoutes.create_trip now trip_data tbl
  = TripService.create_trip now trip_data tbl
  /\ TripRoutes.update_trip now trip_id updates tbl
     = TripService.update_trip now trip_id updates tbl
  /\ (forall detail,
        fst (TripRoutes.create_trip now trip_data tbl)
        <> Raise (HTTPException 400 detail)
        /\ fst (TripRoutes.update_trip now trip_id updates tbl)
           <> Raise (HTTPException 400 detail)).
Proof.
  assert (C : TripRoutes.create_trip now trip_data tbl
              = TripService.create_trip now trip_data tbl).
  { unfold TripRoutes.create_trip, TripService.create_trip.
    now destruct (TripRepository.create _ tbl). }
  assert (U : TripRoutes.update_trip now trip_id updates tbl
              = TripService.update_trip now trip_id updates tbl).
  { unfold TripRoutes.update_trip.
    pose proof (update_trip_outcomes now trip_id updates tbl) as O.
    destruct (TripService.update_trip now trip_id updates tbl) as [[r|e] t];
      cbn in *; auto.
    destruct O as [->| ->]; reflexivity. }
  split; [exact C|split; [exact U|]].
  intro detail. rewrite C, U. split.
  - unfold TripService.create_trip.
    destruct (TripRepository.create _ tbl). cbn. discriminate.
  - pose proof (update_trip_outcomes now trip_id updates tbl) as O.
    destruct (fst (TripService.update_trip now trip_id updates tbl))
      as [r|e]; [discriminate|].
    destruct O as [->| ->]; unfold TripService.not_found; intro H;
      inversion H.
Qed.

(** * Further properties of the weather cache *)

(** ** Lookups after a change of the table *)

Lemma find_filter_kept {A : Type} (p q : A -> bool) (l : list A) :
  (forall x, In x l -> p x = true -> q x = true) ->
  find p (filter q l) = find p l.
Proof.
  induction l as [|a l IH]; cbn [filter find]; intro H; auto.
  assert (IH' : find p (filter q l) = find p l)
    by (apply IH; intros x Hx; apply H; now right).
  destruct (q a) eqn:Q; cbn [find].
  - now rewrite IH'.
  - destruct (p a) eqn:P; auto.
    rewrite (H a (or_introl eq_refl) P) in Q. discriminate.
Qed.

Lemma select_first_session_delete (loc : string) (c : WeatherCache.t)
    (tbl : list WeatherCache.t) :
  pk_unique tbl -> In c tbl -> WeatherCache.location c <> loc ->
  WeatherRepository.select_first loc (WeatherRepository.session_delete c tbl)
  = WeatherRepository.select_first loc tbl.
Proof.
  intros PK Hc Hl. unfold WeatherRepository.select_first,
    WeatherRepository.session_delete.
  apply find_filter_kept. intros x Hx E. apply String.eqb_eq in E.
  apply negb_true_iff, not_true_is_false. intro S. apply same_id_eq in S.
  assert (x = c) by (eapply keyed_injective; eauto).
  subst. contradiction.
Qed.

Lemma select_first_map (loc : string) (f : WeatherCache.t -> WeatherCache.t)
    (tbl : list WeatherCache.t) :
  (forall r, In r tbl -> WeatherCache.location (f r) = WeatherCache.location r) ->
  (forall r, In r tbl -> WeatherCache.location r = loc -> f r = r) ->
  WeatherRepository.select_first loc (map f tbl)
  = WeatherRepository.select_first loc tbl.
Proof.
  unfold WeatherRepository.select_first.
  induction tbl as [|a tbl IH]; cbn [map find]; intros Hl Hf; auto.
  rewrite (Hl a (or_introl eq_refl)).
  destruct (String.eqb (WeatherCache.location a) loc) eqn:E.
  - apply String.eqb_eq in E. now rewrite (Hf a (or_introl eq_refl) E).
  - apply IH; intros r Hr; [apply Hl|apply Hf]; now right.
Qed.

Lemma select_first_app (loc : string) (tbl : list WeatherCache.t)
    (row : WeatherCache.t) :
  WeatherCache.location row <> loc ->
  WeatherRepository.select_first loc (tbl ++ [row])
  = WeatherRepository.select_first loc tbl.
Proof.
  unfold WeatherRepository.select_first. intro H.
  induction tbl as [|a tbl IH]; cbn [app find].
  - apply String.eqb_neq in H. now rewrite H.
  - now destruct (String.eqb (WeatherCache.location a) loc).
Qed.

(** A read leaves the entries of the other locations where they are. *)
Lemma get_cached_weather_frame (now : datetime) (loc loc' : string)
    (tbl : list WeatherCache.t) :
  pk_unique tbl -> loc' <> loc ->
  WeatherRepository.select_first loc'
    (snd (WeatherRepository.get_cached_weather now loc tbl))
  = WeatherRepository.select_first loc' tbl.
Proof.
  intros PK Hl. unfold WeatherRepository.get_cached_weather.
  destruct (WeatherRepository.select_first loc tbl) as [c|] eqn:S; auto.
  destruct (WeatherCache.is_expired now c); auto. cbn [snd].
  apply select_first_Some in S as [Hc Ec].
  apply select_first_session_delete; auto. congruence.
Qed.

(** The result of a read, from the entry found for the location. *)
Lemma get_cached_weather_by_select (now : datetime) (loc : string)
    (tbl : list WeatherCache.t) :
  fst (WeatherRepository.get_cached_weather now loc tbl)
  = match WeatherRepository.select_first loc tbl with
    | Some c => if WeatherCache.is_expired now c then None else Some c
    | None => None
    end.
Proof.
  unfold WeatherRepository.get_cached_weather.
  destruct (WeatherRepository.select_first loc tbl) as [c|]; auto.
  now destruct (WeatherCache.is_expired now c).
Qed.

(** X10.  Reads of different locations do not interfere: on a table with
    unique keys, reading one location (and evicting its expired entry)
    leaves the result of any later read of another location unchanged. *)
Theorem reads_of_other_locations_are_unaffected (now now' : datetime)
    (loc loc' : string) (tbl : list WeatherCache.t) :
  pk_unique tbl -> loc' <> loc ->
  fst (WeatherRepository.get_cached_weather now' loc'
         (snd (WeatherRepository.get_cached_weather now loc tbl)))
  = fst (WeatherRepository.get_cached_weather now' loc' tbl).
Proof.
  intros PK Hl. rewrite !get_cached_weather_by_select.
  now rewrite get_cached_weather_frame.
Qed.

Lemma reads_of_other_locations_are_unaffected_witness :
  pk_unique sample_cache /\ "Paris"%string <> "Tokyo"%string
  /\ fst (WeatherRepository.get_cached_weather (121 * minute) "Paris"
            (snd (WeatherRepository.get_cached_weather (120 * minute) "Tokyo"
                    sample_cache)))
     = Some paris_row.
Proof.
  assert (D : "Paris"%string <> "Tokyo"%string) by discriminate.
  split; [exact sample_cache_pk_unique|split; [exact D|]].
  rewrite (reads_of_other_locations_are_unaffected (120 * minute)
             (121 * minute) "Tokyo" "Paris" sample_cache
             sample_cache_pk_unique D).
  reflexivity.
Defined.

(** ** Clearing a location *)

(** X11.  On a table with unique keys and at most one entry per location,
    [clear_location_cache] returns true exactly when the table holds an
    entry for the location; afterwards the table holds the entries of the
    other locations and nothing else, so the location is neither found by
    [exists] nor listed by [get_all_cached_locations] at any time, and the
    other locations read as before. *)
Theorem clear_location_cache_spec (loc : string)
    (tbl : list WeatherCache.t) :
  pk_unique tbl -> one_per_location tbl ->
  (fst (WeatherRepository.clear_location_cache loc tbl) = true
   <-> In loc (map WeatherCache.location tbl))
  /\ (forall x,
        In x (snd (WeatherRepository.clear_location_cache loc tbl))
        <-> In x tbl /\ WeatherCache.location x <> loc)
  /\ (forall now,
        fst (WeatherRepository.exists_ now loc
               (snd (WeatherRepository.clear_location_cache loc tbl)))
        = false
        /\ ~ In loc (WeatherRepository.get_all_cached_locations now
                       (snd (WeatherRepository.clear_location_cache loc
                               tbl))))
  /\ (forall loc', loc' <> loc ->
        WeatherRepository.select_first loc'
          (snd (WeatherRepository.clear_location_cache loc tbl))
        = WeatherRepository.select_first loc' tbl).
Proof.
  intros PK ND.
  assert (Rows : forall x,
             In x (snd (WeatherRepository.clear_location_cache loc tbl))
             <-> In x tbl /\ WeatherCache.location x <> loc).
  { intro x. unfold WeatherRepository.clear_location_cache.
    destruct (WeatherRepository.select_first loc tbl) as [c|] eqn:S;
      cbn [snd].
    - apply select_first_Some in S as [Hc Ec].
      rewrite (session_delete_In tbl c PK Hc x). split; intros [Hx H];
        split; auto.
      + intro E. apply H. eapply keyed_injective; eauto. congruence.
      + intros ->. contradiction.
    - split; [|tauto]. intro Hx. split; auto.
      now apply (select_first_None loc tbl S). }
  split; [|split; [exact Rows|split]].
  - unfold WeatherRepository.clear_location_cache.
    destruct (WeatherRepository.select_first loc tbl) as [c|] eqn:S;
      cbn [fst].
    + apply select_first_Some in S as [Hc Ec]. split; auto.
      intros _. rewrite <- Ec. now apply in_map.
    + split; [discriminate|]. intro Hin.
      apply in_map_iff in Hin as (x & E & Hx).
      exfalso. now apply (select_first_None loc tbl S x Hx).
  - intro now.
    assert (S : WeatherRepository.select_first loc
                  (snd (WeatherRepository.clear_location_cache loc tbl))
                = None).
    { apply select_first_absent. intros x Hx. now apply Rows in Hx. }
    split.
    + unfold WeatherRepository.exists_,
        WeatherRepository.get_cached_weather. now rewrite S.
    + unfold WeatherRepository.get_all_cached_locations. intro Hin.
      apply in_map_iff in Hin as (x & E & Hx).
      apply filter_In in Hx as [Hx _]. now apply Rows in Hx.
  - intros loc' Hl. unfold WeatherRepository.clear_location_cache.
    destruct (WeatherRepository.select_first loc tbl) as [c|] eqn:S;
      cbn [snd]; auto.
    apply select_first_Some in S as [Hc Ec].
    apply select_first_session_delete; auto. congruence.
Qed.

Lemma clear_location_cache_spec_witness :
  pk_unique sample_cache /\ one_per_location sample_cache
  /\ fst (WeatherRepository.clear_location_cache "Paris" sample_cache) = true
  /\ In "Paris"%string (map WeatherCache.location sample_cache).
Proof.
  destruct (clear_location_cache_spec "Paris" sample_cache
              sample_cache_pk_unique sample_cache_one_per_location)
    as (C & _).
  split; [exact sample_cache_pk_unique|].
  split; [exact sample_cache_one_per_location|].
  assert (Hin : In "Paris"%string (map WeatherCache.location sample_cache))
    by (simpl; auto).
  split; [exact (proj2 C Hin)|exact Hin].
Defined.

(** ** Listing the cached locations *)

(** X12.  [get_all_cached_locations] lists the locations of the entries
    that are at most thirty minutes old.  With at most one entry per
    location the list has no repetition, and a location is listed exactly
    when [exists] finds it at the same instant. *)
Theorem get_all_cached_locations_spec (now : datetime)
    (tbl : list WeatherCache.t) :
  one_per_location tbl ->
  (forall loc,
      In loc (WeatherRepository.get_all_cached_locations now tbl)
      <-> exists wc, In wc tbl /\ WeatherCache.location wc = loc
                     /\ now - WeatherCache.cached_at wc <= 1800 * 1000000)
  /\ (forall loc,
        In loc (WeatherRepository.get_all_cached_locations now tbl)
        <-> fst (WeatherRepository.exists_ now loc tbl) = true)
  /\ NoDup (WeatherRepository.get_all_cached_locations now tbl).
Proof.
  intro ND.
  assert (L : forall loc,
             In loc (WeatherRepository.get_all_cached_locations now tbl)
             <-> exists wc, In wc tbl /\ WeatherCache.location wc = loc
                            /\ now - WeatherCache.cached_at wc
                               <= 1800 * 1000000).
  { intro loc. unfold WeatherRepository.get_all_cached_locations.
    rewrite in_map_iff. split.
    - intros (wc & E & Hw). apply filter_In in Hw as [Hw X].
      apply negb_true_iff in X. apply is_expired_false in X.
      exists wc. auto.
    - intros (wc & Hw & E & Age). exists wc. split; auto.
      apply filter_In. split; auto.
      apply negb_true_iff. now apply is_expired_false. }
  split; [exact L|split].
  - intro loc. rewrite L. unfold WeatherRepository.exists_.
    destruct (WeatherRepository.get_cached_weather now loc tbl)
      as [[c|] tbl'] eqn:G; cbn [fst].
    + apply get_cached_weather_hit in G as (_ & S & X).
      apply select_first_Some in S as [Hc Ec].
      apply is_expired_false in X. split; auto.
      intros _. exists c. auto.
    + split; [|discriminate].
      intros (wc & Hw & E & Age). exfalso.
      unfold WeatherRepository.get_cached_weather in G.
      rewrite <- E, (select_first_unique tbl wc ND Hw) in G.
      apply (is_expired_false now wc) in Age. rewrite Age in G.
      discriminate.
  - unfold WeatherRepository.get_all_cached_locations.
    now apply keyed_filter.
Qed.

Lemma get_all_cached_locations_spec_witness :
  one_per_location sample_cache
  /\ WeatherRepository.get_all_cached_locations (120 * minute) sample_cache
     = ["Paris"%string]
  /\ NoDup (WeatherRepository.get_all_cached_locations (120 * minute)
              sample_cache).
Proof.
  split; [exact sample_cache_one_per_location|split; [reflexivity|]].
  exact (proj2 (proj2 (get_all_cached_locations_spec (120 * minute)
                         sample_cache sample_cache_one_per_location))).
Defined.

(** ** Sweeping twice, and reading after a sweep *)

Lemma cleanup_expired_cache_filter (now : datetime)
    (tbl : list WeatherCache.t) :
  pk_unique tbl ->
  WeatherRepository.cleanup_expired_cache now tbl
  = (Z.of_nat (List.length (filter (WeatherCache.is_expired now) tbl)),
     filter (fun r => negb (WeatherCache.is_expired now r)) tbl).
Proof.
  intro PK. unfold WeatherRepository.cleanup_expired_cache.
  rewrite cleanup_loop_spec. f_equal.
  apply filter_ext_in. intros r Hin. now rewrite expired_visited.
Qed.

Lemma filter_none {A : Type} (p : A -> bool) (l : list A) :
  (forall x, In x l -> p x = false) -> filter p l = [].
Proof.
  induction l as [|a l IH]; cbn [filter]; intro H; auto.
  rewrite (H a (or_introl eq_refl)). apply IH. intros x Hx. apply H. now right.
Qed.

Lemma filter_every {A : Type} (p : A -> bool) (l : list A) :
  (forall x, In x l -> p x = true) -> filter p l = l.
Proof.
  induction l as [|a l IH]; cbn [filter]; intro H; auto.
  rewrite (H a (or_introl eq_refl)). f_equal. apply IH.
  intros x Hx. apply H. now right.
Qed.

(** X13.  On a table with unique keys, a sweep leaves nothing to sweep or
    to evict at the same instant: a second sweep deletes 0 entries and
    changes nothing, no read changes the swept table, and the sweep does
    not change what [get_all_cached_locations] lists nor what any read
    returns. *)
Theorem cleanup_expired_cache_settles (now : datetime)
    (tbl : list WeatherCache.t) :
  pk_unique tbl ->
  WeatherRepository.cleanup_expired_cache now
    (snd (WeatherRepository.cleanup_expired_cache now tbl))
  = (0, snd (WeatherRepository.cleanup_expired_cache now tbl))
  /\ (forall loc,
        snd (WeatherRepository.get_cached_weather now loc
               (snd (WeatherRepository.cleanup_expired_cache now tbl)))
        = snd (WeatherRepository.cleanup_expired_cache now tbl))
  /\ WeatherRepository.get_all_cached_locations now
       (snd (WeatherRepository.cleanup_expired_cache now tbl))
     = WeatherRepository.get_all_cached_locations now tbl
  /\ (one_per_location tbl ->
      forall loc,
        fst (WeatherRepository.get_cached_weather now loc
               (snd (WeatherRepository.cleanup_expired_cache now tbl)))
        = fst (WeatherRepository.get_cached_weather now loc tbl)).
Proof.
  intro PK. rewrite (cleanup_expired_cache_filter now tbl PK). cbn [snd].
  set (kept := filter (fun r => negb (WeatherCache.is_expired now r)) tbl).
  assert (Fresh : forall x, In x kept -> WeatherCache.is_expired now x = false).
  { intros x Hx. apply filter_In in Hx as [_ X]. now apply negb_true_iff. }
  assert (PK' : pk_unique kept) by now apply keyed_filter.
  split; [|split; [|split]].
  - rewrite (cleanup_expired_cache_filter now kept PK').
    rewrite (filter_none _ kept Fresh). f_equal.
    apply filter_every. intros x Hx. now rewrite (Fresh x Hx).
  - intro loc. unfold WeatherRepository.get_cached_weather.
    destruct (WeatherRepository.select_first loc kept) as [c|] eqn:S; auto.
    apply select_first_Some in S as [Hc _]. now rewrite (Fresh c Hc).
  - unfold WeatherRepository.get_all_cached_locations. f_equal.
    apply filter_every. intros x Hx. now rewrite (Fresh x Hx).
  - intros ND loc. rewrite !get_cached_weather_by_select.
    destruct (WeatherRepository.select_first loc tbl) as [c|] eqn:S.
    + apply select_first_Some in S as [Hc Ec].
      destruct (WeatherCache.is_expired now c) eqn:X.
      * rewrite select_first_absent; auto.
        intros x Hx E. pose proof (Fresh x Hx) as Fx.
        apply filter_In in Hx as [Hx _].
        assert (x = c) by (eapply keyed_injective; eauto; congruence).
        congruence.
      * assert (Hk : In c kept)
          by (apply filter_In; split; auto; now rewrite X).
        rewrite <- Ec.
        rewrite (select_first_unique kept c (keyed_filter _ _ _ _ tbl ND) Hk).
        now rewrite X.
    + rewrite select_first_absent; auto.
      intros x Hx. apply filter_In in Hx as [Hx _].
      now apply (select_first_None loc tbl S).
Qed.

Lemma cleanup_expired_cache_settles_witness :
  pk_unique sample_cache
  /\ WeatherRepository.cleanup_expired_cache (120 * minute) [paris_row]
     = (0, [paris_row]).
Proof.
  split; [exact sample_cache_pk_unique|].
  exact (proj1 (cleanup_expired_cache_settles (120 * minute) sample_cache
                  sample_cache_pk_unique)).
Defined.

(** ** Writing and reading back *)

Lemma store_weather_cache_storable (now : datetime)
    (wc row : WeatherCache.t) (tbl tbl' : list WeatherCache.t) :
  WeatherRepository.store_weather_cache now wc tbl = (Ok row, tbl') ->
  storable wc = true.
Proof.
  intro Call.
  destruct (store_weather_cache_cases now wc tbl)
    as [(err & E & _)|[(e & _ & S & _)|(tbl1 & _ & S & _)]]; auto.
  rewrite E in Call. discriminate.
Qed.

(** X14.  On a table with unique keys and at most one entry per location,
    after an accepted [store_weather_cache] of an object cached at most
    thirty minutes ago, a read of its location returns the row the write
    returned and changes nothing; the row carries the written condition,
    humidity and updated-at, and the written temperature and wind speed as
    the store keeps them: the same numbers, a negative zero being kept as
    zero.  The write is accepted for an object without key whose humidity
    is a 64-bit integer and whose floats are not NaN, and refused for any
    object whose values are not such.  Accepted or not, the entries found
    for the other locations are the same as before the write. *)
Theorem store_weather_cache_read_back (now : datetime)
    (wc : WeatherCache.t) (tbl : list WeatherCache.t) :
  pk_unique tbl -> one_per_location tbl ->
  now - WeatherCache.cached_at wc <= 1800 * 1000000 ->
  (forall row tbl',
      WeatherRepository.store_weather_cache now wc tbl = (Ok row, tbl') ->
      WeatherRepository.get_cached_weather now (WeatherCache.location wc) tbl'
      = (Some row, tbl')
      /\ WeatherCache.temperature row
         = stored_real (WeatherCache.temperature wc)
      /\ PrimFloat.eqb (WeatherCache.temperature row)
           (WeatherCache.temperature wc) = true
      /\ WeatherCache.condition row = WeatherCache.condition wc
      /\ WeatherCache.humidity row = WeatherCache.humidity wc
      /\ WeatherCache.wind_speed row
         = stored_real (WeatherCache.wind_speed wc)
      /\ PrimFloat.eqb (WeatherCache.wind_speed row)
           (WeatherCache.wind_speed wc) = true
      /\ WeatherCache.updated_at row = WeatherCache.updated_at wc)
  /\ (storable wc = true -> WeatherCache.id wc = None ->
      exists row tbl',
        WeatherRepository.store_weather_cache now wc tbl = (Ok row, tbl'))
  /\ (storable wc = false ->
      exists err,
        fst (WeatherRepository.store_weather_cache now wc tbl) = Raise err)
  /\ (forall loc, loc <> WeatherCache.location wc ->
        WeatherRepository.select_first loc
          (snd (WeatherRepository.store_weather_cache now wc tbl))
        = WeatherRepository.select_first loc tbl).
Proof.
  intros PK ND Age. split; [|split; [|split]].
  - intros row tbl' Call.
    destruct (store_weather_cache_lookup now wc row tbl tbl' ND Call)
      as (S & El & Et & Ec & Eh & Ew & Eu & Ea).
    pose proof (store_weather_cache_storable _ _ _ _ _ Call) as St.
    apply storable_spec in St as [_ Nn].
    unfold WeatherCache.has_null in Nn. apply orb_false_iff in Nn as [Nt Nw].
    split; [|rewrite Et, Ew; repeat split; auto using stored_real_eqb].
    unfold WeatherRepository.get_cached_weather. rewrite S.
    replace (WeatherCache.is_expired now row) with false; auto.
    symmetry. apply is_expired_false. unfold thirty_minutes.
    destruct Ea as [-> | ->]; lia.
  - apply store_weather_cache_accepts.
  - intro S.
    destruct (store_weather_cache_refuses now wc tbl S) as (err & E & _).
    exists err. now rewrite E.
  - intros loc Hl.
    pose proof (get_cached_weather_frame now (WeatherCache.location wc) loc
                  tbl PK Hl) as F.
    destruct (store_weather_cache_cases now wc tbl)
      as [(err & E & _)|[(e & G & _ & E)|(tbl1 & G & _ & _ & E)]];
      rewrite E; cbn [snd]; auto.
    + apply get_cached_weather_hit in G as (_ & S & _).
      apply select_first_Some in S as [He Ee].
      apply select_first_map.
      * intros r _.
        now destruct (same_id (WeatherCache.id r) (WeatherCache.id e)).
      * intros r Hr Er.
        destruct (same_id (WeatherCache.id r) (WeatherCache.id e)) eqn:I;
          auto.
        exfalso. apply same_id_eq in I.
        assert (r = e)
          by (apply (keyed_injective _ _ WeatherCache.id tbl); auto).
        subst. congruence.
    + rewrite G in F. cbn [snd] in F.
      rewrite select_first_app; auto.
Qed.

Lemma store_weather_cache_read_back_witness :
  pk_unique sample_cache /\ one_per_location sample_cache
  /\ exists row tbl',
       WeatherRepository.store_weather_cache (120 * minute)
         (WeatherCache.mk None "Tokyo" PrimFloat.neg_zero "Snow" 80
            PrimFloat.neg_zero (119 * minute) (120 * minute)) sample_cache
       = (Ok row, tbl')
       /\ fst (WeatherRepository.get_cached_weather (120 * minute) "Tokyo"
                 tbl') = Some row
       /\ WeatherCache.temperature row = PrimFloat.zero
       /\ WeatherCache.humidity row = 80.
Proof.
  split; [exact sample_cache_pk_unique|].
  split; [exact sample_cache_one_per_location|].
  destruct (store_weather_cache_read_back (120 * minute)
              (WeatherCache.mk None "Tokyo" PrimFloat.neg_zero "Snow" 80
                 PrimFloat.neg_zero (119 * minute) (120 * minute))
              sample_cache sample_cache_pk_unique
              sample_cache_one_per_location
              ltac:(vm_compute; discriminate))
    as (Back & Accepted & _).
  destruct (Accepted eq_refl eq_refl) as (row & tbl' & E).
  destruct (Back row tbl' E) as (G & Et & _ & _ & Eh & _).
  exists row, tbl'. split; [exact E|split; [exact (f_equal fst G)|]].
  split; [exact Et|exact Eh].
Defined.

(** ** The mock generator and the case of the location *)

(** X15.  The mock generator ignores the case of the location: two
    locations with the same lower-case form get the same temperature,
    condition, humidity and wind speed (each response keeps the location
    as it was given).  The humidity lies between 40 and 89 and the
    condition is one of the four listed. *)
Theorem generate_mock_weather_ignores_case (hash : string -> Z)
    (now : datetime) (l1 l2 : string) :
  lower l1 = lower l2 ->
  exists r1 r2,
    MockWeatherResponse.generate_mock_weather hash now l1 = Ok r1
    /\ MockWeatherResponse.generate_mock_weather hash now l2 = Ok r2
    /\ WeatherResponse.location r1 = l1
    /\ WeatherResponse.location r2 = l2
    /\ WeatherResponse.temperature r1 = WeatherResponse.temperature r2
    /\ WeatherResponse.condition r1 = WeatherResponse.condition r2
    /\ WeatherResponse.humidity r1 = WeatherResponse.humidity r2
    /\ WeatherResponse.wind_speed r1 = WeatherResponse.wind_speed r2
    /\ 40 <= WeatherResponse.humidity r1 <= 89
    /\ In (WeatherResponse.condition r1) MockWeatherResponse.conditions.
Proof.
  intro L.
  assert (I : mock_index hash l1 = mock_index hash l2)
    by (unfold mock_index; now rewrite L).
  destruct (generate_mock_weather_ok hash now l1)
    as (t1 & w1 & Et1 & Ew1 & _ & _ & M1).
  destruct (generate_mock_weather_ok hash now l2)
    as (t2 & w2 & Et2 & Ew2 & _ & _ & M2).
  rewrite M1, M2. do 2 eexists.
  split; [reflexivity|split; [reflexivity|]].
  cbn [WeatherResponse.location WeatherResponse.temperature
       WeatherResponse.condition WeatherResponse.humidity
       WeatherResponse.wind_speed].
  rewrite I in *.
  pose proof (Z.mod_pos_bound (mock_index hash l2) 50 eq_refl).
  pose proof (Z.mod_pos_bound (mock_index hash l2) 4 eq_refl).
  repeat split; try congruence; try lia.
  apply nth_In. cbn [List.length MockWeatherResponse.conditions]. lia.
Qed.

Lemma generate_mock_weather_ignores_case_witness :
  lower "TOKYO" = lower "Tokyo"
  /\ exists r1 r2,
       MockWeatherResponse.generate_mock_weather (CPython.str_hash 1) 0
         "TOKYO" = Ok r1
       /\ MockWeatherResponse.generate_mock_weather (CPython.str_hash 1) 0
            "Tokyo" = Ok r2
       /\ WeatherResponse.humidity r1 = WeatherResponse.humidity r2.
Proof.
  split; [reflexivity|].
  destruct (generate_mock_weather_ignores_case (CPython.str_hash 1) 0
              "TOKYO" "Tokyo" eq_refl)
    as (r1 & r2 & M1 & M2 & _ & _ & _ & _ & Eh & _).
  exists r1, r2. auto.
Defined.

(** ** Whitespace around the location *)

Lemma rstrip_keeps_head (c : ascii) (r : string) :
  is_space c = false -> rstrip (String c r) = String c (rstrip r).
Proof. intro H. cbn [rstrip]. rewrite H. now destruct (rstrip r). Qed.

Lemma lstrip_head (s : string) :
  lstrip s = EmptyString
  \/ exists c r, lstrip s = String c r /\ is_space c = false.
Proof.
  induction s as [|c s IH]; cbn [lstrip]; auto.
  destruct (is_space c) eqn:E; auto. right. eauto.
Qed.

Lemma rstrip_idempotent (s : string) : rstrip (rstrip s) = rstrip s.
Proof.
  induction s as [|c s IH]; auto. cbn [rstrip].
  destruct (rstrip s) as [|c' r'] eqn:R.
  - destruct (is_space c) eqn:E; auto. cbn [rstrip]. now rewrite E.
  - cbn [rstrip] in *. now rewrite IH.
Qed.

Lemma strip_idempotent (s : string) : strip (strip s) = strip s.
Proof.
  unfold strip. destruct (lstrip_head s) as [->|(c & r & -> & E)]; auto.
  rewrite (rstrip_keeps_head c r E). cbn [lstrip]. rewrite E.
  rewrite <- (rstrip_keeps_head c r E). apply rstrip_idempotent.
Qed.

Lemma blank_check (s : string) :
  negb (truthy s) || negb (truthy (strip s)) = negb (truthy (strip s)).
Proof. destruct s; auto. Qed.

(** X16.  Only the trimmed location matters: a call of the service with a
    location gives the same result and the same state as the call with
    the trimmed location (both are the 400 when the location is blank),
    and the route's own blank test adds nothing to the service's. *)
Theorem get_weather_depends_on_trimmed_location (env : Env)
    (now : datetime) (location : string) (w : World) :
  WeatherService.get_weather_for_location env now location w
  = WeatherService.get_weather_for_location env now (strip location) w
  /\ WeatherRoutes.get_weather_for_location env now location w
     = WeatherService.get_weather_for_location env now location w
  /\ (strip location = EmptyString ->
      WeatherService.get_weather_for_location env now location w
      = (Raise (HTTPException 400 "Location cannot be empty"), w)).
Proof.
  split; [|split].
  - unfold WeatherService.get_weather_for_location.
    now rewrite !blank_check, strip_idempotent.
  - unfold WeatherRoutes.get_weather_for_location,
      WeatherService.get_weather_for_location.
    rewrite blank_check. now destruct (negb (truthy (strip location))).
  - apply get_weather_blank.
Qed.

(** ** Requests and rows per call *)

Lemma filter_length_le {A : Type} (p : A -> bool) (l : list A) :
  (List.length (filter p l) <= List.length l)%nat.
Proof. pose proof (filter_length_split p l). lia. Qed.

Lemma get_cached_weather_length (now : datetime) (loc : string)
    (tbl : list WeatherCache.t) :
  (List.length (snd (WeatherRepository.get_cached_weather now loc tbl))
   <= List.length tbl)%nat.
Proof.
  unfold WeatherRepository.get_cached_weather.
  destruct (WeatherRepository.select_first loc tbl) as [c|]; auto.
  destruct (WeatherCache.is_expired now c); auto.
  apply filter_length_le.
Qed.

Lemma store_weather_cache_length (now : datetime) (wc : WeatherCache.t)
    (tbl : list WeatherCache.t) :
  (List.length (snd (WeatherRepository.store_weather_cache now wc tbl))
   <= S (List.length tbl))%nat.
Proof.
  pose proof (get_cached_weather_length now (WeatherCache.location wc) tbl)
    as Len.
  destruct (store_weather_cache_cases now wc tbl)
    as [(err & E & _)|[(e & G & _ & E)|(tbl1 & G & _ & _ & E)]];
    rewrite E; cbn [snd].
  - lia.
  - rewrite length_map. lia.
  - rewrite G in Len. cbn [snd] in Len. rewrite length_app. cbn. lia.
Qed.

(** X17.  One call of the service sends at most one request to the
    provider, for the trimmed location, and sends it only when a
    credential is configured and the cache missed; no call adds more than
    one row to the cache. *)
Theorem get_weather_sends_at_most_one_request (env : Env) (now : datetime)
    (location : string) (w : World) :
  (requests (snd (WeatherService.get_weather_for_location env now
                    location w)) = requests w
   \/ (requests (snd (WeatherService.get_weather_for_location env now
                        location w)) = strip location :: requests w
       /\ WeatherService.key_configured env = true
       /\ strip location <> EmptyString
       /\ fst (WeatherRepository.get_cached_weather now (strip location)
                 (cache w)) = None))
  /\ (List.length
        (cache (snd (WeatherService.get_weather_for_location env now
                       location w)))
      <= S (List.length (cache w)))%nat.
Proof.
  destruct (string_dec (strip location) EmptyString) as [B|NB].
  - rewrite (get_weather_blank env now location w B). cbn. split; auto.
  - pose proof (get_cached_weather_length now (strip location) (cache w))
      as Len.
    destruct (WeatherRepository.get_cached_weather now (strip location)
                (cache w)) as [[c|] tbl1] eqn:G.
    + unfold WeatherService.get_weather_for_location.
      rewrite (strip_not_blank location NB), G. cbn in *. split; auto.
    + destruct (get_weather_miss env now location w tbl1 NB G)
        as (r & _ & _ & E & _).
      rewrite E. cbn [snd fst requests cache] in *.
      rewrite fetch_requests. split.
      * destruct (WeatherService.key_configured env); auto.
      * pose proof (store_weather_cache_length now (cache_entry_of r now)
                      tbl1). lia.
Qed.

(** ** Write-through *)

(** What a successful call leaves in the cache under the location of the
    snapshot it returns: the row the hit was served from, or the row the
    miss wrote, which holds the snapshot as the store keeps it. *)
Lemma get_weather_stored (env : Env) (now : datetime) (location : string)
    (w w' : World) (r : WeatherResponse.t) :
  one_per_location (cache w) ->
  WeatherService.get_weather_for_location env now location w = (Ok r, w') ->
  one_per_location (cache w')
  /\ exists e,
       WeatherRepository.select_first (WeatherResponse.location r) (cache w')
       = Some e
       /\ (forall c,
             fst (WeatherRepository.get_cached_weather now (strip location)
                    (cache w)) = Some c ->
             e = c /\ response_of_row e = r)
       /\ (fst (WeatherRepository.get_cached_weather now (strip location)
                  (cache w)) = None ->
           response_of_row e = stored_response r)
       /\ WeatherCache.is_expired now e = false.
Proof.
  intros ND Call.
  assert (NB : strip location <> EmptyString).
  { intro B. rewrite (get_weather_blank env now location w B) in Call.
    discriminate. }
  destruct (WeatherRepository.get_cached_weather now (strip location)
              (cache w)) as [[c|] tbl1] eqn:G.
  - pose proof (get_cached_weather_hit _ _ _ _ _ G) as (-> & S & X).
    unfold WeatherService.get_weather_for_location in Call.
    rewrite (strip_not_blank location NB), G in Call.
    injection Call as Hc Hw. subst w'. cbn [cache].
    apply create_of_row_inv in Hc as [_ ->].
    split; auto. exists c. cbn [response_of_row WeatherResponse.location].
    apply select_first_Some in S as [Hin El].
    rewrite (select_first_unique (cache w) c ND Hin).
    cbn [fst]. split; [reflexivity|split; [|split; [discriminate|exact X]]].
    intros c' Ec. injection Ec as <-. auto.
  - assert (Miss : fst (WeatherRepository.get_cached_weather now
                          (strip location) (cache w)) = None)
      by now rewrite G.
    destruct (get_weather_miss_entry env now location w w' r ND Miss Call)
      as (_ & ND' & _ & _ & _ & _ & _ & e & S & _ & Same & At).
    split; [exact ND'|]. exists e.
    cbn [fst]. split; [exact S|split; [discriminate|split; [auto|]]].
    apply is_expired_false. unfold thirty_minutes. lia.
Qed.

(** X18.  Write-through: whenever the service returns a snapshot, from the
    cache, the provider or the mock generator, a read of the cache under
    the snapshot's location at the same instant finds an entry and changes
    nothing, and the location is among the cached locations.  After a hit
    the entry is the row that was hit and holds the returned snapshot;
    after a miss it holds the returned snapshot as the store keeps it (the
    same fields, a negative zero kept as zero). *)
Theorem get_weather_writes_through (env : Env) (now : datetime)
    (location : string) (w w' : World) (r : WeatherResponse.t) :
  one_per_location (cache w) ->
  WeatherService.get_weather_for_location env now location w = (Ok r, w') ->
  (exists e,
      WeatherRepository.get_cached_weather now (WeatherResponse.location r)
        (cache w') = (Some e, cache w')
      /\ (forall c,
            fst (WeatherRepository.get_cached_weather now (strip location)
                   (cache w)) = Some c ->
            e = c /\ response_of_row e = r)
      /\ (fst (WeatherRepository.get_cached_weather now (strip location)
                 (cache w)) = None ->
          response_of_row e = stored_response r)
      /\ stored_response (response_of_row e) = stored_response r)
  /\ WeatherService.has_cached_weather now (WeatherResponse.location r) w'
     = (true, w')
  /\ In (WeatherResponse.location r)
       (WeatherService.get_cached_locations now w').
Proof.
  intros ND Call.
  destruct (get_weather_stored env now location w w' r ND Call)
    as (_ & e & S & Hit & Miss & X).
  assert (G : WeatherRepository.get_cached_weather now
                (WeatherResponse.location r) (cache w')
              = (Some e, cache w')).
  { unfold WeatherRepository.get_cached_weather. now rewrite S, X. }
  split; [exists e; split; [exact G|split; [exact Hit|split; [exact Miss|]]]
         |split].
  - destruct (fst (WeatherRepository.get_cached_weather now (strip location)
                     (cache w))) as [c|].
    + destruct (Hit c eq_refl) as [_ ->]. reflexivity.
    + rewrite (Miss eq_refl). unfold stored_response. cbn.
      now rewrite !stored_real_idempotent.
  - unfold WeatherService.has_cached_weather, WeatherRepository.exists_.
    rewrite G. now destruct w'.
  - unfold WeatherService.get_cached_locations,
      WeatherRepository.get_all_cached_locations.
    apply select_first_Some in S as [Hin El].
    apply in_map_iff. exists e. split; auto.
    apply filter_In. split; auto. now rewrite X.
Qed.

Lemma get_weather_writes_through_witness :
  one_per_location (cache empty_world)
  /\ exists r w',
       WeatherService.get_weather_for_location keyed_env 7 "london"
         empty_world = (Ok r, w')
       /\ WeatherService.has_cached_weather 7 "London" w' = (true, w').
Proof.
  assert (ND : one_per_location (cache empty_world)) by constructor.
  split; [exact ND|].
  destruct (WeatherService.get_weather_for_location keyed_env 7 "london"
              empty_world) as [res w'] eqn:Call.
  assert (R : res = Ok (WeatherResponse.mk "London" 18.5%float "Light Rain"
                          72 18%float 7)).
  { vm_compute in Call. now injection Call as <- _. }
  subst res.
  destruct (get_weather_writes_through keyed_env 7 "london" empty_world w' _
              ND Call) as (_ & H & _).
  eexists. exists w'. split; [reflexivity|exact H].
Defined.

(** X19.  When the provider fetch does not succeed (no credential, or any
    failure), the snapshot is cached under the trimmed requested location:
    after the call the location is found by [has_cached_weather] and
    listed; clearing it then returns true, after which it is found no
    more. *)
Theorem failed_fetch_is_cached_under_the_request (env : Env)
    (now now' : datetime) (location : string) (w : World) :
  one_per_location (cache w) ->
  strip location <> EmptyString ->
  is_ok (fst (WeatherService._fetch_weather_from_api env now
                (strip location) (requests w))) = false ->
  fst (WeatherService.has_cached_weather now (strip location)
         (snd (WeatherService.get_weather_for_location env now location w)))
  = true
  /\ In (strip location)
       (WeatherService.get_cached_locations now
          (snd (WeatherService.get_weather_for_location env now location w)))
  /\ fst (WeatherService.clear_cache_for_location (strip location)
            (snd (WeatherService.get_weather_for_location env now
                    location w))) = true
  /\ fst (WeatherService.has_cached_weather now' (strip location)
            (snd (WeatherService.clear_cache_for_location (strip location)
                    (snd (WeatherService.get_weather_for_location env now
                            location w))))) = false.
Proof.
  intros ND NB Fail.
  assert (Entry : one_per_location
                    (cache (snd (WeatherService.get_weather_for_location
                                   env now location w)))
                  /\ exists e,
                       WeatherRepository.select_first (strip location)
                         (cache (snd (WeatherService.get_weather_for_location
                                        env now location w))) = Some e
                       /\ WeatherCache.is_expired now e = false).
  { destruct (WeatherRepository.get_cached_weather now (strip location)
                (cache w)) as [[c|] tbl1] eqn:G.
    - pose proof (get_cached_weather_hit _ _ _ _ _ G) as (-> & S & X).
      unfold WeatherService.get_weather_for_location.
      rewrite (strip_not_blank location NB), G. cbn [snd cache]. eauto.
    - destruct (get_weather_miss env now location w tbl1 NB G)
        as (r & Src & _ & E & _).
      destruct Src as [F|(_ & M & N)]; [rewrite F in Fail; discriminate|].
      rewrite N in E.
      destruct (get_weather_stored env now location w _ r ND E)
        as (ND' & e & S & _ & _ & X).
      rewrite E in *. cbn [snd] in *. split; auto.
      exists e. split; auto.
      destruct (generate_mock_weather_ok (hash env) now (strip location))
        as (t & ws & _ & _ & _ & _ & M').
      rewrite M' in M. injection M as <-. exact S. }
  destruct Entry as (ND' & e & S & X).
  set (w' := snd (WeatherService.get_weather_for_location env now location w))
    in *.
  pose proof (select_first_Some _ _ _ S) as [Hin El].
  split; [|split; [|split]].
  - unfold WeatherService.has_cached_weather, WeatherRepository.exists_,
      WeatherRepository.get_cached_weather. now rewrite S, X.
  - unfold WeatherService.get_cached_locations,
      WeatherRepository.get_all_cached_locations.
    apply in_map_iff. exists e. split; auto.
    apply filter_In. split; auto. now rewrite X.
  - unfold WeatherService.clear_cache_for_location,
      WeatherRepository.clear_location_cache. now rewrite S.
  - unfold WeatherService.clear_cache_for_location,
      WeatherRepository.clear_location_cache. rewrite S. cbn [snd cache].
    unfold WeatherService.has_cached_weather, WeatherRepository.exists_,
      WeatherRepository.get_cached_weather. cbn [cache].
    rewrite select_first_absent; auto.
    intros x Hx. rewrite <- El.
    now apply (session_delete_location_gone (cache w') e ND' Hin).
Qed.

Lemma failed_fetch_is_cached_under_the_request_witness :
  one_per_location (cache empty_world)
  /\ strip " Paris " <> EmptyString
  /\ fst (WeatherService.has_cached_weather (10 * minute) "Paris"
            (snd (WeatherService.get_weather_for_location keyless_env
                    (10 * minute) " Paris " empty_world))) = true.
Proof.
  assert (ND : one_per_location (cache empty_world)) by constructor.
  assert (NB : strip " Paris " <> EmptyString) by (vm_compute; discriminate).
  split; [exact ND|split; [exact NB|]].
  exact (proj1 (failed_fetch_is_cached_under_the_request keyless_env
                  (10 * minute) 0 " Paris " empty_world ND NB eq_refl)).
Defined.

(** ** What the provider client raises *)




(** X21.  Every snapshot the service returns, be it read from the cache,
    fetched from the provider or generated, has a humidity between 0 and
    100 and a wind speed that is not negative; so has every snapshot the
    provider client returns. *)
Theorem returned_snapshots_are_in_range (env : Env) (now : datetime)
    (location : string) (w w' : World) (r : WeatherResponse.t) :
  WeatherService.get_weather_for_location env now location w = (Ok r, w')
  \/ fst (WeatherService._fetch_weather_from_api env now location
            (requests w)) = Ok r ->
  0 <= WeatherResponse.humidity r <= 100
  /\ PrimFloat.leb 0 (WeatherResponse.wind_speed r) = true.
Proof.
  intro H.
  assert (R : response_in_range r = true).
  { destruct H as [Call|F]; [|now apply fetch_in_range in F].
    assert (NB : strip location <> EmptyString).
    { intro B. rewrite (get_weather_blank env now location w B) in Call.
      discriminate. }
    destruct (WeatherRepository.get_cached_weather now (strip location)
                (cache w)) as [[c|] tbl1] eqn:G.
    - unfold WeatherService.get_weather_for_location in Call.
      rewrite (strip_not_blank location NB), G in Call.
      injection Call as Hc _. now apply create_in_range in Hc.
    - destruct (get_weather_miss env now location w tbl1 NB G)
        as (r0 & _ & R & E & _).
      rewrite E in Call.
      destruct (PrimFloat.is_nan (WeatherResponse.temperature r0));
        [discriminate|].
      now injection Call as <- _. }
  unfold response_in_range in R.
  apply andb_true_iff in R as [R Rw]. apply andb_true_iff in R as [R1 R2].
  apply Z.leb_le in R1, R2. auto.
Qed.

Lemma returned_snapshots_are_in_range_witness :
  fst (WeatherService._fetch_weather_from_api keyed_env 7 "london"
         (requests empty_world))
  = Ok (WeatherResponse.mk "London" 18.5%float "Light Rain" 72 18%float 7)
  /\ 0 <= 72 <= 100.
Proof.
  split; [reflexivity|].
  exact (proj1 (returned_snapshots_are_in_range keyed_env 7 "london"
                  empty_world empty_world
                  (WeatherResponse.mk "London" 18.5%float "Light Rain" 72
                     18%float 7) (or_intror eq_refl))).
Defined.

(** ** The weather of a trip *)

(** X22.  The request model accepts a destination made of whitespace (its
    only test is a length of at least 1).  For a trip with such a
    destination the weather of the trip is never available: once the trip
    is created, the weather route of the trip raises the 400 "Location
    cannot be empty" and touches neither the cache nor the provider. *)
Theorem blank_destination_has_no_weather (env : Env) (now now' : datetime)
    (trip_data : TripCreate.t) (tbl : list Trip.t) (w : World) :
  TripCreate.validate trip_data = Ok trip_data ->
  strip (TripCreate.destination trip_data) = EmptyString ->
  exists resp tbl',
    TripRoutes.create_trip now trip_data tbl = (Ok resp, tbl')
    /\ WeatherRoutes.get_weather_for_trip env now' (TripResponse.id resp)
         tbl' w
       = (Raise (HTTPException 400 "Location cannot be empty"), w).
Proof.
  intros _ B.
  unfold TripRoutes.create_trip, TripService.create_trip.
  set (trip := Trip.mk None _ _ _ _ _ now now).
  pose proof (get_by_id_create trip tbl (next_id (map Trip.id tbl))) as G.
  rewrite Z.eqb_refl in G.
  destruct (TripRepository.create trip tbl) as [created tbl'] eqn:C.
  cbn [fst snd] in G.
  unfold TripRepository.create in C. injection C as Hc Ht.
  do 2 eexists. split; [reflexivity|].
  unfold WeatherRoutes.get_weather_for_trip, TripService.get_trip_by_id.
  subst created. cbn [TripResponse.from_trip TripResponse.id Trip.id id_value].
  rewrite G. cbn [TripResponse.destination Trip.destination trip].
  now apply get_weather_blank.
Qed.

Lemma blank_destination_has_no_weather_witness :
  TripCreate.validate (TripCreate.mk "Nowhere" "  " 10 12 None)
  = Ok (TripCreate.mk "Nowhere" "  " 10 12 None)
  /\ strip "  " = EmptyString
  /\ exists resp tbl',
       TripRoutes.create_trip 3 (TripCreate.mk "Nowhere" "  " 10 12 None)
         sample_trips = (Ok resp, tbl')
       /\ WeatherRoutes.get_weather_for_trip keyed_env 4
            (TripResponse.id resp) tbl' empty_world
          = (Raise (HTTPException 400 "Location cannot be empty"),
             empty_world).
Proof.
  split; [reflexivity|split; [reflexivity|]].
  exact (blank_destination_has_no_weather keyed_env 3 4
           (TripCreate.mk "Nowhere" "  " 10 12 None) sample_trips empty_world
           eq_refl eq_refl).
Defined.
